(** * BMW lessons-learned frontend: solution search and file validation

    A shallow embedding of the client-side logic of the solution-search
    feature (types, polling service, progress view, result view, search
    form) and of the file service's client-side validation.

    Conventions used for JavaScript values:
    - a JS string is a Rocq [string]; [String.length] stands for the JS
      [.length] (number of code units);
    - a JS number that only ever holds an integer (counters, byte sizes,
      milliseconds) is a [Z]; a number that holds a fraction (scores,
      percentages) is an exact rational [Q];
    - an optional field [x?: T] is an [option T]; JS truthiness of such a
      field is written out ([truthy_str], [guard_num]). *)

From Stdlib Require Import ZArith QArith Qminmax Lqa List String Ascii Bool Lia.
From Stdlib Require Import DecimalString.
From Stdlib Require DecimalPos DecimalZ.
Import ListNotations.

Local Open Scope string_scope.
Local Open Scope Z_scope.

(** ** JavaScript helpers *)

Module JS.

(** [String(n)] for an integer-valued number. *)
Definition show (n : Z) : string :=
  NilZero.string_of_int (Z.to_int n).

(** Truthiness of an optional string: [undefined] and the empty string are
    falsy. *)
Definition truthy_str (o : option string) : bool :=
  match o with
  | None => false
  | Some s => negb (String.eqb s "")
  end.

(** [Array.prototype.includes] on an array of strings. *)
Definition includes (xs : list string) (x : string) : bool :=
  existsb (String.eqb x) xs.

(** [Array.prototype.join]. *)
Definition join (sep : string) (xs : list string) : string :=
  String.concat sep xs.

(** [x.toFixed(0)] for [x = n / d] with [0 < d]: the nearest integer, a tie
    going away from zero, printed in decimal. *)
Definition toFixed0 (n d : Z) : string :=
  if n <? 0 then "-" ++ show ((2 * (- n) + d) / (2 * d))
  else show ((2 * n + d) / (2 * d)).

End JS.

(** ** services/fileService.ts *)

Module FileService.

(** The part of a browser [File] the validation reads. *)
Record File := { name : string; size : Z; type : string }.

(** [{ valid: boolean; error?: string }] *)
Record FileValidation := { valid : bool; error : option string }.

(** [{ valid: boolean; errors: string[] }] (the field [valid] of the source
    is [all_valid] here, a record field name being global in Rocq). *)
Record FilesValidation := { all_valid : bool; errors : list string }.

Definition defaultMaxSize : Z := 10 * 1024 * 1024.
Definition defaultAllowedTypes : list string :=
  ["image/jpeg"; "image/png"; "application/pdf"].
Definition defaultMaxFiles : Z := 5.

Definition validateFile (file : File) (maxSize : Z)
    (allowedTypes : list string) : FileValidation :=
  (* Check file size *)
  if size file >? maxSize then
    {| valid := false;
       error := Some ("File size exceeds maximum allowed size ("
                      ++ JS.toFixed0 maxSize (1024 * 1024) ++ "MB)") |}
  (* Check file type *)
  else if negb (JS.includes allowedTypes (type file)) then
    {| valid := false;
       error := Some ("File type not allowed. Allowed types: "
                      ++ JS.join ", " allowedTypes) |}
  else {| valid := true; error := None |}.

(** The body of the [forEach] callback: [errors] after visiting [file]. *)
Definition visit (maxSize : Z) (allowedTypes : list string)
    (errors : list string) (file : File) : list string :=
  let validation := validateFile file maxSize allowedTypes in
  if negb (valid validation) && JS.truthy_str (error validation) then
    match error validation with
    | Some e => errors ++ [name file ++ ": " ++ e]
    | None => errors ++ [name file ++ ": undefined"]
    end
  else errors.

Definition validateFiles (files : list File) (maxFiles maxSize : Z)
    (allowedTypes : list string) : FilesValidation :=
  (* Check number of files *)
  if Z.of_nat (List.length files) >? maxFiles then
    {| all_valid := false;
       errors := [] ++ ["Maximum " ++ JS.show maxFiles ++ " files allowed"] |}
  else
    (* Validate each file *)
    let errors := fold_left (visit maxSize allowedTypes) files [] in
    {| all_valid := Nat.eqb (List.length errors) 0; errors := errors |}.

(** The calls with every optional parameter left out. *)
Definition validateFile_default (file : File) : FileValidation :=
  validateFile file defaultMaxSize defaultAllowedTypes.

Definition validateFiles_default (files : list File) : FilesValidation :=
  validateFiles files defaultMaxFiles defaultMaxSize defaultAllowedTypes.

(** A file within the default limits: size and type. *)
Definition acceptable (f : File) : Prop :=
  size f <= 10 * 1024 * 1024 /\
  In (type f) ["image/jpeg"; "image/png"; "application/pdf"].

(** The message [validateFiles] pushes for a rejected file. *)
Definition report (maxSize : Z) (allowedTypes : list string) (file : File)
    : string :=
  name file ++ ": "
  ++ match error (validateFile file maxSize allowedTypes) with
     | Some e => e
     | None => "undefined"
     end.

End FileService.

(** ** types/solutionSearch.ts *)

Module SolutionSearch.

Inductive SearchSource := database | rag | web.

Inductive SearchStatus := searching | completed | failed.

Inductive Severity := low | medium | high | critical.

Record SolutionSearchRequest := {
  problem_description : string;
  department : string;
  severity : Severity;
  reporter_name : string
}.

(** [SolutionSearchFormData] has the fields of [SolutionSearchRequest]. *)
Definition SolutionSearchFormData := SolutionSearchRequest.

(** The [metadata] object of a result ([md_] marks the two fields whose
    names the request already uses). *)
Record Metadata := {
  incident_id : option Z;
  created_at : option string;
  md_department : option string;
  md_severity : option string
}.

Record SearchResult := {
  source : SearchSource;
  title : string;
  description : string;
  relevance_score : Q;
  solution : option string;
  url : option string;
  metadata : option Metadata
}.

Record Progress := {
  database_completed : bool;
  rag_completed : bool;
  web_completed : bool;
  total_sources : Z;
  completed_sources : Z
}.

(** [resp_] marks the two fields [SearchStatusResponse] has as well. *)
Record SolutionSearchResponse := {
  resp_search_id : Z;
  resp_status : SearchStatus;
  results : list SearchResult;
  summary : string;
  confidence_score : Q;
  search_progress : option Progress
}.

Record SearchStatusResponse := {
  search_id : Z;
  status : SearchStatus;
  progress : Progress;
  estimated_completion_time : option Z
}.

(** The string a [SearchSource] is at run time. *)
Definition source_string (s : SearchSource) : string :=
  match s with
  | database => "database"
  | rag => "rag"
  | web => "web"
  end.

Definition source_eqb (a b : SearchSource) : bool :=
  String.eqb (source_string a) (source_string b).

Definition status_eqb (a b : SearchStatus) : bool :=
  match a, b with
  | searching, searching | completed, completed | failed, failed => true
  | _, _ => false
  end.

End SolutionSearch.

(** ** components/SearchResults.tsx: what one result card shows *)

Module SearchResults.
Import SolutionSearch.

(** What [{n && <X/>}] leaves for an optional number [n]: nothing when [n]
    is undefined, the text 0 when it is 0 (React prints a number), and the
    element otherwise. *)
Inductive Slot (A : Type) :=
| Empty
| Zero
| Shown (a : A).
Arguments Empty {A}.
Arguments Zero {A}.
Arguments Shown {A} a.

Definition guard_num {A} (n : option Z) (f : Z -> A) : Slot A :=
  match n with
  | None => Empty
  | Some n => if n =? 0 then Zero else Shown (f n)
  end.

(** The spans of the metadata line ([ZeroText] is the 0 an [incident_id] of
    0 leaves); the date is kept as the [created_at] string the locale
    formatter is given. *)
Inductive MetaSpan :=
| ZeroText
| IncidentSpan (text : string)
| DepartmentSpan (text : string)
| SeveritySpan (text : string)
| DateSpan (created_at : string).

(** The card [renderResult] returns, one field per conditional part. *)
Record ResultCard := {
  key : string;
  cardTitle : string;
  sourceBadge : string;
  confidenceClass : string;
  confidenceBadge : string;
  viewDetailsButton : Slot Z;
  viewButton : option string;
  descriptionText : string;
  suggestedSolution : option string;
  metadataLine : option (list MetaSpan)
}.

Definition getConfidenceColor (score : Q) : string :=
  if Qle_bool (8 # 10) score then "bg-green-100 text-green-800 border-green-200"
  else if Qle_bool (6 # 10) score then "bg-yellow-100 text-yellow-800 border-yellow-200"
  else if Qle_bool (4 # 10) score then "bg-orange-100 text-orange-800 border-orange-200"
  else "bg-red-100 text-red-800 border-red-200".

Definition getConfidenceLabel (score : Q) : string :=
  if Qle_bool (8 # 10) score then "High"
  else if Qle_bool (6 # 10) score then "Medium"
  else if Qle_bool (4 # 10) score then "Low"
  else "Very Low".

(** [result.source.toUpperCase()] *)
Definition toUpperCase_source (s : SearchSource) : string :=
  match s with
  | database => "DATABASE"
  | rag => "RAG"
  | web => "WEB"
  end.

(** [result.metadata?.incident_id] *)
Definition metadata_incident_id (result : SearchResult) : option Z :=
  match metadata result with
  | Some m => incident_id m
  | None => None
  end.

(** [{x && <X/>}] for an optional string [x]: the element when [x] is truthy
    ([ok]), nothing otherwise. *)
Definition when_some {A B} (o : option A) (ok : A -> bool) (f : A -> B)
    : list B :=
  match o with
  | Some a => if ok a then [f a] else []
  | None => []
  end.

Definition metadataSpans (m : Metadata) : list MetaSpan :=
  match guard_num (incident_id m)
          (fun n => IncidentSpan ("Incident #" ++ JS.show n)) with
  | Empty => []
  | Zero => [ZeroText]
  | Shown span => [span]
  end
  ++ when_some (md_department m) (fun s => negb (String.eqb s ""))
               (fun s => DepartmentSpan ("Department: " ++ s))
  ++ when_some (md_severity m) (fun s => negb (String.eqb s ""))
               (fun s => SeveritySpan ("Severity: " ++ s))
  ++ when_some (created_at m) (fun s => negb (String.eqb s "")) DateSpan.

Definition renderResult (result : SearchResult) (index : Z) : ResultCard :=
  {| key := source_string (source result) ++ "-" ++ JS.show index;
     cardTitle := title result;
     sourceBadge := toUpperCase_source (source result);
     confidenceClass := getConfidenceColor (relevance_score result);
     confidenceBadge :=
       getConfidenceLabel (relevance_score result) ++ " Confidence";
     viewDetailsButton :=
       if source_eqb (source result) database
       then guard_num (metadata_incident_id result) (fun n => n)
       else Empty;
     viewButton := if JS.truthy_str (url result) then url result else None;
     descriptionText := description result;
     (* Only show solution for internal database results, not for external
        web results *)
     suggestedSolution :=
       if JS.truthy_str (solution result)
          && negb (source_eqb (source result) web)
       then solution result else None;
     metadataLine := option_map metadataSpans (metadata result) |}.

(** [group.results.map((result, index) => renderResult(result, index))] *)
Fixpoint renderFrom (index : Z) (rs : list SearchResult) : list ResultCard :=
  match rs with
  | [] => []
  | r :: rs => renderResult r index :: renderFrom (index + 1) rs
  end.

(** The cards of one tab: the results of [src], in order. *)
Definition renderSourceResults (src : SearchSource)
    (response : SolutionSearchResponse) : list ResultCard :=
  renderFrom 0
    (filter (fun r => source_eqb (source r) src) (results response)).

(** One of the three groups the results are shown in ([group_] marks the
    fields whose names a result has as well; the icon is left out). *)
Record ResultGroup := {
  group_source : SearchSource;
  group_results : list SearchResult;
  group_title : string;
  group_description : string
}.

(** Group results by source *)
Definition resultGroups (response : SolutionSearchResponse)
    : list ResultGroup :=
  [ {| group_source := database;
       group_results :=
         filter (fun r => source_eqb (source r) database) (results response);
       group_title := "Internal Solutions";
       group_description := "Solutions from our incident database" |};
    {| group_source := rag;
       group_results :=
         filter (fun r => source_eqb (source r) rag) (results response);
       group_title := "Knowledge Base";
       group_description := "Solutions from our Excel knowledge base" |};
    {| group_source := web;
       group_results :=
         filter (fun r => source_eqb (source r) web) (results response);
       group_title := "External Solutions";
       group_description := "Solutions found on the web" |} ].

(** The number a tab shows:
    [resultGroups.find(g => g.source === src)?.results.length || 0]. *)
Definition tabCount (src : SearchSource) (response : SolutionSearchResponse)
    : Z :=
  match find (fun g => source_eqb (group_source g) src)
             (resultGroups response) with
  | Some g => Z.of_nat (List.length (group_results g))
  | None => 0
  end.

(** The cards of a group, as [renderSourceResults(group)] maps them. *)
Definition renderGroup (group : ResultGroup) : list ResultCard :=
  renderFrom 0 (group_results group).

End SearchResults.

(** ** The asynchronous client code: requests, timers and exceptions

    An [async] function is a computation that, given what the network will
    answer, produces the events it causes in order (requests sent, timers
    awaited, callbacks and state setters called) and either a value or the
    message of the [Error] it throws. Every value thrown in these files is an
    [Error] built from a message (the API client's interceptor throws
    [new Error(message)] for every failed request). *)

Module Async.
Import SolutionSearch.
Local Open Scope list_scope.

Definition Error := string.

Inductive Event :=
| PostSubmit (body : SolutionSearchRequest)
| GetStatus (searchId : Z)
| GetResults (searchId : Z)
| Sleep (ms : Z)
| OnProgress (status : SearchStatusResponse)
| SetStatus (status : SearchStatusResponse)
| SetIsPolling (b : bool)
| OnComplete
| OnError (message : string)
| SetIsSubmitting (b : bool)
| SetError (message : option string)
| SetSearchId (searchId : Z)
| SetSearchState (state : string)
| SetSearchResponse (response : SolutionSearchResponse)
| ToastSuccess (title text : string)
| ToastError (title text : string)
| ConsoleError (label : string).

(** The answers of the server and the transport: the reply to the n-th
    request of each kind, an [Error] message or the response body. *)
Record Network := {
  submit_reply : nat -> Error + SolutionSearchResponse;
  status_reply : nat -> Error + SearchStatusResponse;
  results_reply : nat -> Error + SolutionSearchResponse
}.

(** How many requests of each kind have been sent so far. *)
Record Sent := { n_submit : nat; n_status : nat; n_results : nat }.

Definition M (A : Type) : Type :=
  Network -> Sent -> list Event * Sent * (Error + A).

Definition ret {A} (a : A) : M A := fun _ s => ([], s, inr a).

Definition throw {A} (e : Error) : M A := fun _ s => ([], s, inl e).

Definition bind {A B} (m : M A) (k : A -> M B) : M B :=
  fun net s =>
    match m net s with
    | (ev, s', inl e) => (ev, s', inl e)
    | (ev, s', inr a) =>
        match k a net s' with
        | (ev', s'', r) => (ev ++ ev', s'', r)
        end
    end.

Definition emit (e : Event) : M unit := fun _ s => ([e], s, inr tt).

(** [try { m } catch (error) { handler error }] *)
Definition try_catch {A} (m : M A) (handler : Error -> M A) : M A :=
  fun net s =>
    match m net s with
    | (ev, s', inl e) =>
        match handler e net s' with
        | (ev', s'', r) => (ev ++ ev', s'', r)
        end
    | done => done
    end.

(** [try { m } finally { cleanup }], for a [cleanup] that neither returns
    nor throws. *)
Definition try_finally {A} (m : M A) (cleanup : M unit) : M A :=
  fun net s =>
    match m net s with
    | (ev, s', r) =>
        match cleanup net s' with
        | (ev', s'', _) => (ev ++ ev', s'', r)
        end
    end.

(** [await new Promise((resolve) => setTimeout(resolve, ms))] *)
Definition sleep (ms : Z) : M unit := emit (Sleep ms).

Definition start : Sent := {| n_submit := 0; n_status := 0; n_results := 0 |}.

(** A run from the start, no request sent yet. *)
Definition run {A} (m : M A) (net : Network)
    : list Event * Sent * (Error + A) :=
  m net start.

(** The events, the requests sent and the outcome of a run. *)
Definition events {A} (x : list Event * Sent * (Error + A)) : list Event :=
  fst (fst x).
Definition sent {A} (x : list Event * Sent * (Error + A)) : Sent :=
  snd (fst x).
Definition outcome {A} (x : list Event * Sent * (Error + A)) : Error + A :=
  snd x.

End Async.

Declare Scope async_scope.
Delimit Scope async_scope with async.
Notation "x <- m ;; k" := (Async.bind m (fun x => k))
  (at level 61, m at next level, right associativity) : async_scope.
Notation "m ;;; k" := (Async.bind m (fun _ => k))
  (at level 61, right associativity) : async_scope.

(** ** services/solutionSearchService.ts *)

Module SolutionSearchService.
Import SolutionSearch Async.
Local Open Scope async_scope.

(** [apiClient.post("/solution-search/submit", searchData)] *)
Definition submitSolutionSearch (searchData : SolutionSearchRequest)
    : M SolutionSearchResponse :=
  fun net s =>
    ([PostSubmit searchData],
     {| n_submit := S (n_submit s); n_status := n_status s;
        n_results := n_results s |},
     submit_reply net (n_submit s)).

(** [apiClient.get(`/solution-search/${searchId}`)] *)
Definition getSearchResults (searchId : Z) : M SolutionSearchResponse :=
  fun net s =>
    ([GetResults searchId],
     {| n_submit := n_submit s; n_status := n_status s;
        n_results := S (n_results s) |},
     results_reply net (n_results s)).

(** [apiClient.get(`/solution-search/${searchId}/status`)] *)
Definition getSearchStatus (searchId : Z) : M SearchStatusResponse :=
  fun net s =>
    ([GetStatus searchId],
     {| n_submit := n_submit s; n_status := S (n_status s);
        n_results := n_results s |},
     status_reply net (n_status s)).

Definition timeout_message : string := "Search timeout - please try again.".
Definition failed_message : string := "Search failed".

(** How one turn of the [while] loop ends: with [return] of the function, or
    at the end of the body with the new value of [attempts]. *)
Inductive Turn :=
| Return (response : SolutionSearchResponse)
| Next (attempts : Z).

(** The [try] block. [onProgress] tells whether the callback was supplied;
    calling it is the event [OnProgress status] (the callback the page passes
    logs to the console). *)
Definition try_block (searchId : Z) (onProgress : bool) (intervalMs : Z)
    (attempts : Z) : M Turn :=
  status <- getSearchStatus searchId ;;
  (if onProgress then emit (OnProgress status) else ret tt) ;;;
  if status_eqb (SolutionSearch.status status) completed then
    response <- getSearchResults searchId ;;
    ret (Return response)
  else if status_eqb (SolutionSearch.status status) failed then
    throw failed_message
  else
    (* Wait before next poll *)
    sleep intervalMs ;;;
    ret (Next (attempts + 1)).

(** The [catch] block. *)
Definition catch_block (maxAttempts intervalMs : Z) (attempts : Z)
    (error : Error) : M Turn :=
  if attempts =? maxAttempts - 1 then throw error
  else
    sleep intervalMs ;;;
    ret (Next (attempts + 1)).

(** The [while (attempts < maxAttempts)] loop and the [throw] after it;
    [None] when [fuel] turns do not reach the end of the loop. *)
Fixpoint poll_loop (fuel : nat) (searchId : Z) (onProgress : bool)
    (maxAttempts intervalMs : Z) (attempts : Z)
    : M (option SolutionSearchResponse) :=
  match fuel with
  | O => ret None
  | S fuel =>
      if attempts <? maxAttempts then
        turn <- try_catch (try_block searchId onProgress intervalMs attempts)
                          (catch_block maxAttempts intervalMs attempts) ;;
        match turn with
        | Return response => ret (Some response)
        | Next attempts =>
            poll_loop fuel searchId onProgress maxAttempts intervalMs attempts
        end
      else throw timeout_message
  end.

Definition pollSearchStatus (searchId : Z) (onProgress : bool)
    (maxAttempts intervalMs : Z) : M (option SolutionSearchResponse) :=
  let attempts := 0 in
  poll_loop (S (Z.to_nat maxAttempts)) searchId onProgress
            maxAttempts intervalMs attempts.

(** The call with [maxAttempts] and [intervalMs] left out. *)
Definition pollSearchStatus_default (searchId : Z) (onProgress : bool)
    : M (option SolutionSearchResponse) :=
  pollSearchStatus searchId onProgress 30 2000.

End SolutionSearchService.

(** ** Runs of the polling loop: what is observed of them *)

Module PollingTrace.
Import SolutionSearch Async SolutionSearchService.
Local Open Scope list_scope.

(** [ev] happens first, then the run [x]. *)
Definition after {A} (ev : list Event) (x : list Event * Sent * (Error + A))
    : list Event * Sent * (Error + A) :=
  (ev ++ events x, sent x, outcome x).

Definition status_sent (s : Sent) : Sent :=
  {| n_submit := n_submit s; n_status := S (n_status s);
     n_results := n_results s |}.

Definition results_sent (s : Sent) : Sent :=
  {| n_submit := n_submit s; n_status := n_status s;
     n_results := S (n_results s) |}.

Definition called (onProgress : bool) (st : SearchStatusResponse)
    : list Event :=
  if onProgress then [OnProgress st] else [].

(** How a turn that caught [e] goes on: the error leaves the function on the
    last attempt, otherwise the loop sleeps and starts the next turn. *)
Definition caught {A} (last : bool) (ms : Z) (ev : list Event) (s : Sent)
    (e : Error) (next : list Event * Sent * (Error + A))
    : list Event * Sent * (Error + A) :=
  if last then (ev, s, inl e) else after (ev ++ [Sleep ms]) next.

(** Number of status requests among the events. *)
Fixpoint status_requests (ev : list Event) : nat :=
  match ev with
  | [] => 0
  | GetStatus _ :: ev => S (status_requests ev)
  | _ :: ev => status_requests ev
  end.

(** Every sleep lasts [ms], and a status request is sent only at the start
    ([waited] holds) or after a sleep that follows the previous one. *)
Fixpoint paced (ms : Z) (waited : bool) (ev : list Event) : bool :=
  match ev with
  | [] => true
  | GetStatus _ :: ev => waited && paced ms false ev
  | Sleep n :: ev => (n =? ms) && paced ms true ev
  | _ :: ev => paced ms waited ev
  end.

(** The [k]-th status request is answered, with status [st]. *)
Definition reports (net : Network) (k : nat) (st : SearchStatus) : Prop :=
  exists r, status_reply net k = inr r /\ status r = st.

(** What the last answer within the budget makes of the call when no
    earlier answer ended it. *)
Definition verdict (reply : Error + SearchStatusResponse)
    : Error + option SolutionSearchResponse :=
  match reply with
  | inl e => inl e
  | inr st =>
      match status st with
      | failed => inl failed_message
      | _ => inl timeout_message
      end
  end.

(** An answer 'failed' with the three sources completed. *)
Definition answer_failed (searchId : Z) : SearchStatusResponse :=
  {| search_id := searchId; status := failed;
     progress := {| database_completed := true; rag_completed := true;
                    web_completed := true; total_sources := 3;
                    completed_sources := 3 |};
     estimated_completion_time := None |}.

(** A network on which the first status request is answered 'failed' and
    every later one gets no response. *)
Definition masked_failure : Network :=
  {| submit_reply := fun _ => inl "Network error. Please check your connection.";
     status_reply := fun k =>
       match k with
       | O => inr (answer_failed 7)
       | S _ => inl "Network error. Please check your connection."
       end;
     results_reply := fun _ => inl "Network error. Please check your connection." |}.

(** The facts kept along the loop, for a run [x] that starts with [budget]
    turns left and the status request number [first]. *)
Definition loop_facts (ms : Z) (net : Network) (budget first : nat)
    (x : list Event * Sent * (Error + option SolutionSearchResponse)) : Prop :=
  outcome x <> inr None /\
  (status_requests (events x) <= budget)%nat /\
  paced ms true (events x) = true /\
  (forall e, outcome x = inl e -> status_requests (events x) = budget) /\
  (forall r, outcome x = inr (Some r) ->
     exists k, (k < budget)%nat /\ reports net (first + k) completed).

(** The statuses the [onProgress] callback was called with, in order. *)
Fixpoint progress_calls (ev : list Event) : list SearchStatusResponse :=
  match ev with
  | [] => []
  | OnProgress st :: ev => st :: progress_calls ev
  | _ :: ev => progress_calls ev
  end.

(** The answers to the [n] status requests from number [first] on, the
    requests that got none left out. *)
Fixpoint answers (net : Network) (first n : nat) : list SearchStatusResponse :=
  match n with
  | O => []
  | S n =>
      match status_reply net first with
      | inr st => st :: answers net (S first) n
      | inl _ => answers net (S first) n
      end
  end.

(** Number of result requests among the events. *)
Fixpoint results_requests (ev : list Event) : nat :=
  match ev with
  | [] => 0
  | GetResults _ :: ev => S (results_requests ev)
  | _ :: ev => results_requests ev
  end.

(** The events polling causes: requests for [searchId], sleeps, calls of the
    callback. *)
Definition poll_event (searchId : Z) (e : Event) : bool :=
  match e with
  | GetStatus id | GetResults id => id =? searchId
  | Sleep _ | OnProgress _ => true
  | _ => false
  end.

(** An answer with status [st] and no source completed yet. *)
Definition answer (searchId : Z) (st : SearchStatus) : SearchStatusResponse :=
  {| search_id := searchId; status := st;
     progress := {| database_completed := false; rag_completed := false;
                    web_completed := false; total_sources := 3;
                    completed_sources := 0 |};
     estimated_completion_time := None |}.

(** A response without results. *)
Definition empty_response (searchId : Z) : SolutionSearchResponse :=
  {| resp_search_id := searchId; resp_status := completed; results := [];
     summary := "No solutions found."; confidence_score := 0;
     search_progress := None |}.

(** A network on which the search is 'searching' for two polls, the third
    status request fails, and the fourth answer says 'completed'. *)
Definition slow_success : Network :=
  {| submit_reply := fun _ => inr (empty_response 7);
     status_reply := fun k =>
       match k with
       | 0%nat | 1%nat => inr (answer 7 searching)
       | 2%nat => inl "Network error. Please check your connection."
       | _ => inr (answer 7 completed)
       end;
     results_reply := fun _ => inr (empty_response 7) |}.

Definition submit_sent (s : Sent) : Sent :=
  {| n_submit := S (n_submit s); n_status := n_status s;
     n_results := n_results s |}.

(** Number of submit requests among the events. *)
Fixpoint submit_requests (ev : list Event) : nat :=
  match ev with
  | [] => 0
  | PostSubmit _ :: ev => S (submit_requests ev)
  | _ :: ev => submit_requests ev
  end.


Fixpoint slept (ev : list Event) : Z :=
  match ev with
  | [] => 0
  | Sleep ms :: ev => ms + slept ev
  | _ :: ev => slept ev
  end.

End PollingTrace.

(** ** components/SearchProgress.tsx *)

Module SearchProgress.
Import SolutionSearch Async SolutionSearchService.
Local Open Scope async_scope.

(** The [SearchSource] interface of this component (the icon is left out). *)
Record SearchSource := {
  id : string;
  name : string;
  description : string;
  completed : bool;
  estimatedTime : Z (* in seconds *)
}.

Definition searchSources : list SearchSource :=
  [ {| id := "database"; name := "Internal Database";
       description := "Searching our incident database for similar problems";
       completed := false; estimatedTime := 3 |};
    {| id := "rag"; name := "Knowledge Base";
       description := "Analyzing Excel data and historical cases";
       completed := false; estimatedTime := 4 |};
    {| id := "web"; name := "Web Search";
       description := "Searching the web for external solutions";
       completed := false; estimatedTime := 6 |} ].

(** [status?.progress[key]] for a key of the form [`${id}_completed`]:
    undefined when there is no status yet or the key is not one of the three
    flags. *)
Definition progress_flag (status : option SearchStatusResponse)
    (key : string) : option bool :=
  match status with
  | None => None
  | Some st =>
      if String.eqb key "database_completed"
      then Some (database_completed (progress st))
      else if String.eqb key "rag_completed"
      then Some (rag_completed (progress st))
      else if String.eqb key "web_completed"
      then Some (web_completed (progress st))
      else None
  end.

(** Update search sources based on status *)
Definition updatedSources (status : option SearchStatusResponse)
    : list SearchSource :=
  map (fun source =>
         {| id := id source; name := name source;
            description := description source;
            completed :=
              match progress_flag status (id source ++ "_completed") with
              | Some flag => flag || false
              | None => false
              end;
            estimatedTime := estimatedTime source |})
      searchSources.

(** The [for] loop of [getCurrentSourceIndex], from index [i] on. *)
Fixpoint firstPending (i : Z) (sources : list SearchSource) : Z :=
  match sources with
  | [] => -1 (* All completed *)
  | source :: sources =>
      if negb (completed source) then i else firstPending (i + 1) sources
  end.

(** Determine which source is currently being processed *)
Definition getCurrentSourceIndex (status : option SearchStatusResponse) : Z :=
  firstPending 0 (updatedSources status).

Definition totalSources (status : option SearchStatusResponse) : Z :=
  Z.of_nat (List.length (updatedSources status)).

Definition completedSources (status : option SearchStatusResponse) : Z :=
  Z.of_nat (List.length (filter completed (updatedSources status))).

(** [progressPercentage] once the partial progress of the current source is
    added; [elapsedTime] is the component's seconds counter. *)
Definition progressPercentage (status : option SearchStatusResponse)
    (elapsedTime : Q) : Q :=
  let currentSourceIndex := getCurrentSourceIndex status in
  let progressPercentage :=
    ((inject_Z (completedSources status) / inject_Z (totalSources status))
     * 100)%Q in
  (* Add partial progress for current source *)
  if (0 <=? currentSourceIndex)
     && (currentSourceIndex <? Z.of_nat (List.length (updatedSources status)))
  then
    match nth_error (updatedSources status) (Z.to_nat currentSourceIndex) with
    | Some currentSource =>
        let currentSourceProgress :=
          Qmin ((elapsedTime / inject_Z (estimatedTime currentSource)) * 100)%Q
               100%Q in
        (progressPercentage
         + currentSourceProgress / inject_Z (totalSources status))%Q
    | None => progressPercentage
    end
  else progressPercentage.

(** Get estimated total time *)
Definition estimatedTotalTime (status : option SearchStatusResponse) : Z :=
  fold_left
    (fun total source =>
       if completed source then total else total + estimatedTime source)
    (updatedSources status) 0.

(** A sample status: only the knowledge base has completed. *)
Definition rag_only : SearchStatusResponse :=
  {| search_id := 7; status := searching;
     progress := {| database_completed := false; rag_completed := true;
                    web_completed := false; total_sources := 3;
                    completed_sources := 1 |};
     estimated_completion_time := None |}.

(** One run of [pollStatus]; [onComplete] and [onError] tell whether the
    optional callbacks were supplied, and calling them is an event. The
    caught value is always an [Error], so its message is passed on. *)
Definition pollStatus (searchId : Z) (onComplete onError : bool) : M unit :=
  try_catch
    (statusResponse <- getSearchStatus searchId ;;
     emit (SetStatus statusResponse) ;;;
     (* Check if search is completed or failed *)
     if status_eqb (status statusResponse) SolutionSearch.completed then
       emit (SetIsPolling false) ;;;
       if onComplete then emit OnComplete else ret tt
     else if status_eqb (status statusResponse) failed then
       emit (SetIsPolling false) ;;;
       if onError then emit (OnError "Search failed") else ret tt
     else ret tt)
    (fun error =>
       emit (ConsoleError "Error polling search status:") ;;;
       if onError then emit (OnError error) else ret tt).

(** [updatedSources[currentSourceIndex]] under the guard of the partial
    progress: the source being processed, if any. *)
Definition currentSource (status : option SearchStatusResponse)
    : option SearchSource :=
  let currentSourceIndex := getCurrentSourceIndex status in
  if (0 <=? currentSourceIndex)
     && (currentSourceIndex <? Z.of_nat (List.length (updatedSources status)))
  then nth_error (updatedSources status) (Z.to_nat currentSourceIndex)
  else None.

(** A sample status: the web search is the only source still pending. *)
Definition two_completed : SearchStatusResponse :=
  {| search_id := 7; status := searching;
     progress := {| database_completed := true; rag_completed := true;
                    web_completed := false; total_sources := 3;
                    completed_sources := 2 |};
     estimated_completion_time := None |}.




End SearchProgress.

(** ** components/SolutionSearchForm.tsx *)

Module SolutionSearchForm.

(** What the form holds when it is submitted: four strings. *)
Record FormValues := {
  problem_description : string;
  department : string;
  severity : string;
  reporter_name : string
}.

(** A validation issue: the field and the message shown under it. *)
Definition Issue : Type := string * string.

(** [z.string().min(n, message)]: an issue when [value.length < n]. *)
Definition min (n : nat) (message path value : string) : list Issue :=
  if (String.length value <? n)%nat then [(path, message)] else [].

(** [z.string().max(n, message)]: an issue when [value.length > n]. *)
Definition max (n : nat) (message path value : string) : list Issue :=
  if (n <? String.length value)%nat then [(path, message)] else [].

(** [z.enum(["low", "medium", "high", "critical"])] *)
Definition enum (value : string) : option SolutionSearch.Severity :=
  if String.eqb value "low" then Some SolutionSearch.low
  else if String.eqb value "medium" then Some SolutionSearch.medium
  else if String.eqb value "high" then Some SolutionSearch.high
  else if String.eqb value "critical" then Some SolutionSearch.critical
  else None.

Definition issues (v : FormValues) : list Issue :=
  (min 10 "Problem description must be at least 10 characters"
       "problem_description" (problem_description v)
   ++ max 1000 "Problem description must be less than 1000 characters"
          "problem_description" (problem_description v))
  ++ min 1 "Please select a department" "department" (department v)
  ++ match enum (severity v) with
     | Some _ => []
     | None =>
         [("severity",
           "Invalid enum value. Expected 'low' | 'medium' | 'high' | 'critical', received '"
           ++ severity v ++ "'")]
     end
  ++ (min 2 "Reporter name must be at least 2 characters"
          "reporter_name" (reporter_name v)
      ++ max 100 "Reporter name must be less than 100 characters"
             "reporter_name" (reporter_name v)).

(** Parsing with [solutionSearchSchema]: the issues, or the typed data when
    there is none. *)
Definition solutionSearchSchema (v : FormValues)
    : list Issue + SolutionSearch.SolutionSearchFormData :=
  match issues v, enum (severity v) with
  | [], Some sev =>
      inr {| SolutionSearch.problem_description := problem_description v;
             SolutionSearch.department := department v;
             SolutionSearch.severity := sev;
             SolutionSearch.reporter_name := reporter_name v |}
  | errors, _ => inl errors
  end.

(** Sample values: a description of 5 characters, and a reporter name of 1
    character under a description that is long enough. *)
Definition short_description : FormValues :=
  {| problem_description := "Leak.";
     department := "Quality";
     severity := "high";
     reporter_name := "Alex" |}.

Definition short_name : FormValues :=
  {| problem_description := "Coolant leak at the pump flange";
     department := "Quality";
     severity := "high";
     reporter_name := "A" |}.

(** What submitting the form leads to. *)
Inductive Submission (T : Type) :=
| Blocked
| Invalid (errors : list Issue)
| Valid (effect : T).
Arguments Blocked {T}.
Arguments Invalid {T} errors.
Arguments Valid {T} effect.

(** [handleSubmit(onValid)] of the form library with the schema as resolver:
    [onValid] is called with the parsed data only when parsing succeeds. *)
Definition handleSubmit {T} (onValid : SolutionSearch.SolutionSearchFormData -> T)
    (v : FormValues) : Submission T :=
  match solutionSearchSchema v with
  | inl errors => Invalid errors
  | inr data => Valid (onValid data)
  end.

Definition handleFormSubmit {T}
    (onSubmit : SolutionSearch.SolutionSearchFormData -> T)
    (data : SolutionSearch.SolutionSearchFormData) : T :=
  onSubmit data.

(** A click on the submit button. [isValid] is the library's form state and
    [isLoading] the component's property: the button is disabled when
    [!isValid || isLoading]. *)
Definition submit {T} (onSubmit : SolutionSearch.SolutionSearchFormData -> T)
    (isValid isLoading : bool) (v : FormValues) : Submission T :=
  if negb isValid || isLoading then Blocked
  else handleSubmit (handleFormSubmit onSubmit) v.

(** The string a severity level is at run time. *)
Definition severity_string (s : SolutionSearch.Severity) : string :=
  match s with
  | SolutionSearch.low => "low"
  | SolutionSearch.medium => "medium"
  | SolutionSearch.high => "high"
  | SolutionSearch.critical => "critical"
  end.

End SolutionSearchForm.

(** ** The solution search page *)

Module SolutionSearchPage.
Import SolutionSearch Async SolutionSearchService.
Local Open Scope async_scope.

(** [handleFormSubmit] of the page. The callback given to the polling logs
    the status. The branch [None] stands for a polling loop cut short by its
    fuel, which [pollSearchStatus] never is. *)
Definition handleFormSubmit (formData : SolutionSearchFormData) : M unit :=
  try_finally
    (try_catch
       (emit (SetIsSubmitting true) ;;;
        emit (SetError None) ;;;
        (* Submit the search request *)
        response <- submitSolutionSearch
                      {| problem_description := problem_description formData;
                         department := department formData;
                         severity := severity formData;
                         reporter_name := reporter_name formData |} ;;
        emit (SetSearchId (resp_search_id response)) ;;;
        emit (SetSearchState "searching") ;;;
        (* Start polling for results *)
        finalResponse <- pollSearchStatus_default (resp_search_id response) true ;;
        match finalResponse with
        | Some finalResponse =>
            emit (SetSearchResponse finalResponse) ;;;
            emit (SetSearchState "results") ;;;
            emit (ToastSuccess "Search completed!"
                    ("Found "
                     ++ JS.show (Z.of_nat (List.length (results finalResponse)))
                     ++ " potential solutions."))
        | None => ret tt
        end)
       (fun err =>
          emit (ConsoleError "Error during solution search:") ;;;
          emit (SetError (Some err)) ;;;
          emit (SetSearchState "error") ;;;
          emit (ToastError "Search failed" err)))
    (emit (SetIsSubmitting false)).

(** The form as the page mounts it: a click on its submit button. *)
Definition submitForm (isValid isSubmitting : bool)
    (v : SolutionSearchForm.FormValues) : M unit :=
  match SolutionSearchForm.submit handleFormSubmit isValid isSubmitting v with
  | SolutionSearchForm.Valid effect => effect
  | _ => ret tt
  end.

End SolutionSearchPage.

(** ** The search record, its orchestration and the aggregation

    The server side of the search (record store, orchestrator, aggregator)
    is not part of the client sources; this module follows the design
    document. *)

Module Orchestrator.

(** Modelled from the spec: the three sources of the missing orchestrator. *)
Inductive Source := structured | knowledge | web.

(** Modelled from the spec: the per-source state of the missing record
    store. *)
Inductive SourceState := pending | done | errored.

(** Modelled from the spec: the Result of the data model (the optional
    origin-specific metadata is left out). *)
Record Result := {
  source : Source;
  title : string;
  description : string;
  relevanceScore : Q;
  solutionText : option string;
  externalUrl : option string
}.

(** Modelled from the spec: the AggregatedResponse of the data model, without
    the search id and the summary, whose text comes from an external
    generator. *)
Record AggregatedResponse := {
  results : list Result;
  confidenceScore : Q
}.

(** Modelled from the spec: the SearchRecord of the missing record store,
    with the status type of the client; the timestamps are left out. *)
Record SearchRecord := {
  status : SolutionSearch.SearchStatus;
  sourceState : Source -> SourceState;
  resultsBySource : Source -> list Result;
  aggregated : option AggregatedResponse
}.

Definition sources : list Source := [structured; knowledge; web].

Definition source_eqb (a b : Source) : bool :=
  match a, b with
  | structured, structured | knowledge, knowledge | web, web => true
  | _, _ => false
  end.

Definition set {A} (f : Source -> A) (s : Source) (a : A) : Source -> A :=
  fun s' => if source_eqb s' s then a else f s'.

Definition is_pending (st : SourceState) : bool :=
  match st with pending => true | _ => false end.

Definition is_done (st : SourceState) : bool :=
  match st with done => true | _ => false end.

(** Terminal: [done] or [errored]. *)
Definition terminal (st : SourceState) : bool := negb (is_pending st).

(** Modelled from the spec: the finalization check of the missing
    orchestrator, "are all three terminal?". *)
Definition allTerminal (r : SearchRecord) : bool :=
  forallb (fun s => terminal (sourceState r s)) sources.

(** Modelled from the spec: the number of sources that succeeded, as the
    missing aggregator counts them. *)
Definition successfulSources (r : SearchRecord) : nat :=
  List.length (filter (fun s => is_done (sourceState r s)) sources).

(** Modelled from the spec: [create] of the missing record store, status
    'searching' and every source pending. *)
Definition create : SearchRecord :=
  {| status := SolutionSearch.searching;
     sourceState := fun _ => pending;
     resultsBySource := fun _ => [];
     aggregated := None |}.

(** Modelled from the spec: [markSourceDone] of the missing record store; the
    state of a source is written exactly once. *)
Definition markSourceDone (s : Source) (rs : list Result) (r : SearchRecord)
    : SearchRecord :=
  if is_pending (sourceState r s) then
    {| status := status r;
       sourceState := set (sourceState r) s done;
       resultsBySource := set (resultsBySource r) s rs;
       aggregated := aggregated r |}
  else r.

(** Modelled from the spec: [markSourceErrored] of the missing record store;
    a failed source contributes no result. *)
Definition markSourceErrored (s : Source) (r : SearchRecord) : SearchRecord :=
  if is_pending (sourceState r s) then
    {| status := status r;
       sourceState := set (sourceState r) s errored;
       resultsBySource := resultsBySource r;
       aggregated := aggregated r |}
  else r.

(** Modelled from the spec: [finalize] of the missing record store. *)
Definition finalize (st : SolutionSearch.SearchStatus)
    (agg : option AggregatedResponse) (r : SearchRecord) : SearchRecord :=
  {| status := st;
     sourceState := sourceState r;
     resultsBySource := resultsBySource r;
     aggregated := agg |}.

(** Modelled from the spec: the tie-break order of the missing aggregator,
    structured, knowledge, web. *)
Definition priority (s : Source) : nat :=
  match s with structured => 0 | knowledge => 1 | web => 2 end.

(** Modelled from the spec: the ranking of the missing aggregator. [a] is
    ranked no later than [b]: a higher score, or the same score and a source
    of no lower priority. *)
Definition ranks_before (a b : Result) : bool :=
  negb (Qle_bool (relevanceScore a) (relevanceScore b))
  || (Qeq_bool (relevanceScore a) (relevanceScore b)
      && (priority (source a) <=? priority (source b))%nat).

Fixpoint insert (a : Result) (l : list Result) : list Result :=
  match l with
  | [] => [a]
  | b :: l' => if ranks_before a b then a :: b :: l' else b :: insert a l'
  end.

(** Modelled from the spec: the order of the merged results, a stable sort by
    score, descending, ties by source priority. *)
Definition sort (l : list Result) : list Result := fold_right insert [] l.

(** Modelled from the spec: the merge of the missing aggregator, the
    concatenation of the per-source lists, sorted, nothing removed. *)
Definition merge (r : SearchRecord) : list Result :=
  sort (resultsBySource r structured ++ resultsBySource r knowledge
        ++ resultsBySource r web).

(** Modelled from the spec: the relevance score of the top-ranked result of
    the missing aggregator (0 when there is none, a case the design document
    leaves open). *)
Definition topScore (l : list Result) : Q :=
  match l with
  | [] => 0
  | top :: _ => relevanceScore top
  end.

(** No result of the list scores higher than its head. *)
Definition led (l : list Result) : Prop :=
  forall x, In x l -> (relevanceScore x <= topScore l)%Q.

(** Modelled from the spec: [aggregate] of the missing aggregator, with the
    confidence score [topScore * (successfulSources / 3)]. *)
Definition aggregate (r : SearchRecord) : AggregatedResponse :=
  {| results := merge r;
     confidenceScore :=
       (topScore (merge r)
        * (inject_Z (Z.of_nat (successfulSources r)) / 3))%Q |}.

(** Modelled from the spec: the check-and-set the missing orchestrator runs
    after a unit of work ends; it acts once, on a record still 'searching'
    whose three sources are terminal. *)
Definition checkFinalize (r : SearchRecord) : SearchRecord :=
  if SolutionSearch.status_eqb (status r) SolutionSearch.searching
     && allTerminal r
  then
    finalize (if (0 <? successfulSources r)%nat then SolutionSearch.completed
              else SolutionSearch.failed)
             (Some (aggregate r)) r
  else r.

(** Modelled from the spec: the hard ceiling of the missing orchestrator; a
    record still 'searching' is forced to 'failed'. *)
Definition ceiling (r : SearchRecord) : SearchRecord :=
  if SolutionSearch.status_eqb (status r) SolutionSearch.searching
  then finalize SolutionSearch.failed (aggregated r) r
  else r.

(** Modelled from the spec: what the missing orchestrator does to a record;
    a unit of work ends, or the ceiling is reached. *)
Inductive Event :=
| SourceDone (s : Source) (rs : list Result)
| SourceErrored (s : Source)
| Ceiling.

(** Modelled from the spec: one event of the missing orchestrator; the write
    of the source's state, then the finalization check. *)
Definition step (r : SearchRecord) (e : Event) : SearchRecord :=
  match e with
  | SourceDone s rs => checkFinalize (markSourceDone s rs r)
  | SourceErrored s => checkFinalize (markSourceErrored s r)
  | Ceiling => ceiling r
  end.

(** Modelled from the spec: the record of the missing store after the events
    of [trace], in any interleaving; what a polling client observes is the
    record after some prefix. *)
Definition exec (trace : list Event) : SearchRecord :=
  fold_left step trace create.

(** The scenario of the design document: the structured store returns scores
    0.9 and 0.6, the knowledge base 0.7, the web search fails. *)
Definition scenario : list Event :=
  let result s score :=
    {| source := s; title := "candidate"; description := "match";
       relevanceScore := score; solutionText := None; externalUrl := None |} in
  [ SourceDone knowledge [result knowledge (7 # 10)];
    SourceErrored web;
    SourceDone structured [result structured (9 # 10);
                           result structured (6 # 10)] ].

(** The record's invariant: it is 'completed' only with its three sources
    terminal, one of them done, and the aggregate of its final contents
    stored. *)
Definition settled (r : SearchRecord) : Prop :=
  status r = SolutionSearch.completed ->
  allTerminal r = true /\ (0 < successfulSources r)%nat
  /\ aggregated r = Some (aggregate r).

End Orchestrator.

(** ** The file list of the incident report page *)

Module IncidentReport.
Import FileService.
Local Open Scope list_scope.

(** The [forEach] of [handleFileChange]: the valid files, in order, and the
    texts of the error toasts for the others. *)
Fixpoint screen (newFiles : list File) : list File * list string :=
  match newFiles with
  | [] => ([], [])
  | file :: newFiles =>
      let validation := validateFile_default file in
      let (validFiles, toasts) := screen newFiles in
      if valid validation then (file :: validFiles, toasts)
      else
        ((validFiles,
          (name file ++ ": "
           ++ match error validation with
              | Some e => e
              | None => "undefined"
              end)%string :: toasts))
  end.

(** [handleFileChange]: [files] is [e.target.files] ([None] for null) and
    [prev] the selected files; the result is the new selection and the texts
    of the error toasts. *)
Definition handleFileChange (files : option (list File)) (prev : list File)
    : list File * list string :=
  match files with
  | None => (prev, [])
  | Some newFiles =>
      (* Validate each file *)
      let (validFiles, toasts) := screen newFiles in
      if (0 <? Z.of_nat (List.length validFiles)) then
        let combined := prev ++ validFiles in
        if (Z.of_nat (List.length combined) >? 5) then
          (firstn 5 combined, toasts ++ ["Maximum 5 files allowed"%string])
        else (combined, toasts)
      else (prev, toasts)
  end.

(** [prev.filter((_, i) => i !== index)], counting from [i]. *)
Fixpoint removeFrom (i index : Z) (prev : list File) : list File :=
  match prev with
  | [] => []
  | file :: prev =>
      if negb (i =? index) then file :: removeFrom (i + 1) index prev
      else removeFrom (i + 1) index prev
  end.

Definition removeFile (index : Z) (prev : list File) : list File :=
  removeFrom 0 index prev.

(** What the user does to the selection. *)
Inductive Action :=
| FileChange (files : option (list File))
| RemoveFile (index : Z).

Definition act (selectedFiles : list File) (a : Action) : list File :=
  match a with
  | FileChange files => fst (handleFileChange files selectedFiles)
  | RemoveFile index => removeFile index selectedFiles
  end.

(** The selection after the actions, from the empty initial state. *)
Definition selectedAfter (actions : list Action) : list File :=
  fold_left act actions [].

(** The file check at the start of [onSubmit]: the error toasts when it
    stops the submission, [None] when the submission goes on. *)
Definition fileCheck (selectedFiles : list File) : option (list string) :=
  if (Z.of_nat (List.length selectedFiles) >? 0) then
    let validation := validateFiles_default selectedFiles in
    if negb (all_valid validation) then Some (errors validation) else None
  else None.

(** A valid and an oversized sample file. *)
Definition photo : File :=
  {| name := "flange.jpg"; size := 2048; type := "image/jpeg" |}.
Definition video : File :=
  {| name := "line3.mp4"; size := 52428800; type := "video/mp4" |}.

(** A selection the submit check accepts: at most 5 files, each within the
    default limits. *)
Definition within_limits (selectedFiles : list File) : Prop :=
  (List.length selectedFiles <= 5)%nat /\ Forall acceptable selectedFiles.

End IncidentReport.

(** * Properties *)

(** ** File validation *)

Section FileValidation.

Import FileService.

Lemma includes_In xs x : JS.includes xs x = true <-> In x xs.
Proof.
  unfold JS.includes. rewrite existsb_exists. split.
  - intros (y & Hin & Heq). apply String.eqb_eq in Heq. now subst.
  - intros Hin. exists x. split; [assumption | apply String.eqb_refl].
Qed.

(** A single file passes the default check exactly when it is acceptable. *)
Lemma validateFile_default_valid f :
  valid (validateFile_default f) = true <-> acceptable f.
Proof.
  unfold validateFile_default, validateFile, acceptable, defaultMaxSize.
  destruct (Z.gtb_spec (size f) (10 * 1024 * 1024)) as [Hbig | Hsmall]; cbn [valid].
  - split; [discriminate | lia].
  - destruct (JS.includes defaultAllowedTypes (type f)) eqn:Hinc; cbn [negb valid].
    + apply includes_In in Hinc. tauto.
    + split; [discriminate |]. intros [_ Hin].
      apply includes_In in Hin. unfold defaultAllowedTypes in Hinc. congruence.
Qed.

(** A rejected file always carries a non-empty (truthy) message. *)
Lemma validateFile_error_truthy f maxSize allowedTypes :
  valid (validateFile f maxSize allowedTypes) = false ->
  JS.truthy_str (error (validateFile f maxSize allowedTypes)) = true.
Proof.
  unfold validateFile.
  destruct (size f >? maxSize); [reflexivity |].
  destruct (negb (JS.includes allowedTypes (type f))); [reflexivity | discriminate].
Qed.

(** One visit leaves [errors] alone on a valid file and grows it by one
    message otherwise. *)
Lemma visit_spec maxSize allowedTypes errs f :
  (valid (validateFile f maxSize allowedTypes) = true /\
   visit maxSize allowedTypes errs f = errs) \/
  (valid (validateFile f maxSize allowedTypes) = false /\
   exists m, visit maxSize allowedTypes errs f = (errs ++ [m])%list).
Proof.
  unfold visit.
  destruct (valid (validateFile f maxSize allowedTypes)) eqn:Hv; cbn [negb andb].
  - left. split; reflexivity.
  - right. split; [reflexivity |].
    rewrite (validateFile_error_truthy _ _ _ Hv).
    destruct (error (validateFile f maxSize allowedTypes)); eauto.
Qed.

Lemma fold_visit_nil maxSize allowedTypes files : forall errs,
  fold_left (visit maxSize allowedTypes) files errs = [] <->
  errs = [] /\ Forall (fun f => valid (validateFile f maxSize allowedTypes) = true) files.
Proof.
  induction files as [| f files IH]; intros errs; cbn [fold_left].
  - split; [intros ->; split; constructor | tauto].
  - rewrite IH. destruct (visit_spec maxSize allowedTypes errs f) as [[Hv ->] | [Hv [m ->]]].
    + split.
      * intros [-> Hall]. split; [reflexivity | now constructor].
      * intros [-> Hall]. inversion Hall; subst. tauto.
    + split.
      * intros [Habs _]. now destruct errs.
      * intros [_ Hall]. inversion Hall; subst. congruence.
Qed.

(** C10: with the default limits, a list of files is accepted exactly when it
    has at most 5 files, each of at most 10*1024*1024 bytes and of type
    image/jpeg, image/png or application/pdf; with more than 5 files the
    result is the count error alone. *)
Theorem validateFiles_default_spec (files : list File) :
  (all_valid (validateFiles_default files) = true <->
     (List.length files <= 5)%nat /\ Forall acceptable files) /\
  ((List.length files > 5)%nat ->
     validateFiles_default files =
       {| all_valid := false; errors := ["Maximum 5 files allowed"] |}).
Proof.
  unfold validateFiles_default, validateFiles, defaultMaxFiles.
  destruct (Z.gtb_spec (Z.of_nat (List.length files)) 5) as [Hmany | Hfew].
  - split; [| reflexivity].
    cbn [all_valid]. split; [discriminate | lia].
  - split; [| lia].
    cbn [all_valid]. rewrite Nat.eqb_eq, length_zero_iff_nil, fold_visit_nil.
    split.
    + intros [_ Hall]. split; [lia |].
      eapply Forall_impl; [| exact Hall].
      intros f. apply validateFile_default_valid.
    + intros [_ Hall]. split; [reflexivity |].
      eapply Forall_impl; [| exact Hall].
      intros f. apply validateFile_default_valid.
Qed.

(** A file of exactly 10*1024*1024 bytes is accepted, one byte more is not. *)
Example validateFiles_boundary :
  validateFiles_default
    [ {| name := "scan.pdf"; size := 10485760; type := "application/pdf" |} ]
  = {| all_valid := true; errors := [] |} /\
  validateFiles_default
    [ {| name := "scan.pdf"; size := 10485761; type := "application/pdf" |};
      {| name := "run.exe"; size := 12; type := "application/x-msdownload" |} ]
  = {| all_valid := false;
       errors := [ "scan.pdf: File size exceeds maximum allowed size (10MB)";
                   "run.exe: File type not allowed. Allowed types: image/jpeg, image/png, application/pdf" ] |}.
Proof. split; reflexivity. Qed.

End FileValidation.

(** ** Result cards *)

Section ResultCards.

Import SolutionSearch SearchResults.

(** A web result gets no solution section. *)
Lemma renderResult_web result index :
  source result = web -> suggestedSolution (renderResult result index) = None.
Proof.
  unfold renderResult; cbn [suggestedSolution]. intros ->. cbn.
  now rewrite andb_false_r.
Qed.

(** C1: the card of a web result has no solution section, whatever its
    [solution] field holds; a card that has one belongs to a database or
    knowledge-base result and shows that result's own [solution]. *)
Theorem renderResult_solution_only_internal (result : SearchResult) (index : Z) :
  (source result = web ->
     suggestedSolution (renderResult result index) = None) /\
  (forall s, suggestedSolution (renderResult result index) = Some s ->
     (source result = database \/ source result = rag) /\
     solution result = Some s).
Proof.
  split; [apply renderResult_web |].
  unfold renderResult; cbn [suggestedSolution]. intros s.
  destruct (JS.truthy_str (solution result)); cbn [andb]; [| discriminate].
  destruct (source result); cbn; intros H; try discriminate; auto.
Qed.

(** On the "External" tab no card carries a solution section. *)
Lemma renderFrom_web_no_solution rs : forall index card,
  Forall (fun r => source r = web) rs ->
  In card (renderFrom index rs) -> suggestedSolution card = None.
Proof.
  induction rs as [| r rs IH]; intros index card Hall Hin; cbn in Hin.
  - contradiction.
  - inversion Hall as [| ? ? Hr Hrs]; subst. destruct Hin as [<- | Hin].
    + now apply renderResult_web.
    + eapply IH; eauto.
Qed.

Lemma renderSourceResults_web_no_solution response card :
  In card (renderSourceResults web response) -> suggestedSolution card = None.
Proof.
  unfold renderSourceResults. apply renderFrom_web_no_solution.
  apply Forall_forall. intros r Hr. apply filter_In in Hr.
  destruct Hr as [_ Hr]. now destruct (source r).
Qed.

Example renderResult_web_with_solution :
  suggestedSolution
    (renderResult {| source := web; title := "Forum thread";
                     description := "Torque drift on line 3";
                     relevance_score := 9 # 10;
                     solution := Some "Recalibrate the wrench";
                     url := Some "https://example.org/t/1";
                     metadata := None |} 0) = None
  /\ suggestedSolution
    (renderResult {| source := rag; title := "Sheet row 14";
                     description := "Torque drift on line 3";
                     relevance_score := 7 # 10;
                     solution := Some "Recalibrate the wrench";
                     url := None; metadata := None |} 1)
     = Some "Recalibrate the wrench".
Proof. split; reflexivity. Qed.

End ResultCards.

(** ** Polling *)

Section Polling.

Import SolutionSearch Async SolutionSearchService PollingTrace.
Local Open Scope list_scope.

(** One turn of the loop, by the answer to its status request. *)
Lemma poll_loop_turn fuel id cb maxAttempts ms attempts net s :
  attempts < maxAttempts ->
  poll_loop (S fuel) id cb maxAttempts ms attempts net s =
  let last := attempts =? maxAttempts - 1 in
  let next s' := poll_loop fuel id cb maxAttempts ms (attempts + 1) net s' in
  match status_reply net (n_status s) with
  | inl e => caught last ms [GetStatus id] (status_sent s) e (next (status_sent s))
  | inr st =>
      let ev := GetStatus id :: called cb st in
      match status st with
      | searching => after (ev ++ [Sleep ms]) (next (status_sent s))
      | failed =>
          caught last ms ev (status_sent s) failed_message (next (status_sent s))
      | completed =>
          let s2 := results_sent (status_sent s) in
          match results_reply net (n_results s) with
          | inr r => (ev ++ [GetResults id], s2, inr (Some r))
          | inl e => caught last ms (ev ++ [GetResults id]) s2 e (next s2)
          end
      end
  end.
Proof.
  intros Hlt. cbn [poll_loop].
  apply Z.ltb_lt in Hlt. rewrite Hlt.
  unfold bind at 1, try_catch, try_block, catch_block, bind at 1, getSearchStatus.
  fold (status_sent s).
  destruct (status_reply net (n_status s)) as [e | st]; cbn zeta.
  - unfold caught, after, events, sent, outcome.
    destruct (attempts =? maxAttempts - 1); cbn; [reflexivity |].
    now destruct (poll_loop fuel _ _ _ _ _ _ _) as [[? ?] ?].
  - unfold caught, after, events, sent, outcome, called.
    destruct (status st), cb, (attempts =? maxAttempts - 1); cbn;
      try reflexivity;
      try (now destruct (poll_loop fuel _ _ _ _ _ _ _) as [[? ?] ?]);
      destruct (results_reply net (n_results s)); cbn; try reflexivity;
      now destruct (poll_loop fuel _ _ _ _ _ _ _) as [[? ?] ?].
Qed.

Lemma status_requests_app ev ev' :
  status_requests (ev ++ ev') = (status_requests ev + status_requests ev')%nat.
Proof.
  induction ev as [| e ev IH]; [reflexivity |].
  destruct e; cbn; now rewrite ?IH.
Qed.

Lemma poll_loop_done fuel id cb maxAttempts ms attempts net s :
  maxAttempts <= attempts ->
  poll_loop (S fuel) id cb maxAttempts ms attempts net s
  = ([], s, inl timeout_message).
Proof.
  intros Hge. cbn [poll_loop].
  destruct (Z.ltb_spec attempts maxAttempts); [lia | reflexivity].
Qed.

Lemma paced_after_sleep ms ev rest : forall waited,
  paced ms waited ((ev ++ [Sleep ms]) ++ rest)
  = paced ms waited (ev ++ [Sleep ms]) && paced ms true rest.
Proof.
  induction ev as [| e ev IH]; intros waited; cbn.
  - now rewrite Z.eqb_refl.
  - destruct e; cbn; rewrite ?IH; try reflexivity.
    + now rewrite andb_assoc.
    + now rewrite andb_assoc.
Qed.

Lemma facts_after ms net budget first ev x :
  status_requests ev = 1%nat ->
  paced ms true (ev ++ [Sleep ms]) = true ->
  loop_facts ms net budget (S first) x ->
  loop_facts ms net (S budget) first (after (ev ++ [Sleep ms]) x).
Proof.
  intros Hev Hpaced (H1 & H2 & H3 & H4 & H5).
  unfold loop_facts, after; cbn [events outcome fst snd].
  rewrite !status_requests_app, Hev, paced_after_sleep, Hpaced, H3.
  cbn [status_requests]. split; [exact H1 |]. split; [lia |].
  split; [reflexivity |]. split.
  - intros e He. specialize (H4 e He). lia.
  - intros r Hr. destruct (H5 r Hr) as (k & Hk & Hrep).
    exists (S k). split; [lia |]. now rewrite Nat.add_succ_r.
Qed.

Lemma facts_thrown ms net first ev s e :
  status_requests ev = 1%nat ->
  paced ms true ev = true ->
  loop_facts ms net 1 first (ev, s, inl e).
Proof.
  intros Hev Hpaced. unfold loop_facts; cbn [events outcome fst snd].
  rewrite Hev, Hpaced. split; [discriminate |]. split; [lia |].
  split; [reflexivity |]. split; [reflexivity | discriminate].
Qed.

Lemma facts_returned ms net budget first ev s r :
  status_requests ev = 1%nat ->
  paced ms true ev = true ->
  reports net first completed ->
  loop_facts ms net (S budget) first (ev, s, inr (Some r)).
Proof.
  intros Hev Hpaced Hrep. unfold loop_facts; cbn [events outcome fst snd].
  rewrite Hev, Hpaced. split; [discriminate |]. split; [lia |].
  split; [reflexivity |]. split; [discriminate |].
  intros _ _. exists 0%nat. split; [lia |]. now rewrite Nat.add_0_r.
Qed.

Lemma facts_caught ms net budget first last ev s e x :
  (last = true -> budget = 0%nat) ->
  status_requests ev = 1%nat ->
  paced ms true ev = true ->
  paced ms true (ev ++ [Sleep ms]) = true ->
  loop_facts ms net budget (S first) x ->
  loop_facts ms net (S budget) first (caught last ms ev s e x).
Proof.
  intros Hlast Hev Hp Hps Hx. unfold caught. destruct last.
  - rewrite Hlast by reflexivity. now apply facts_thrown.
  - now apply facts_after.
Qed.

(** With enough fuel the loop ends by itself; it sends at most
    [maxAttempts - attempts] status requests, paced by sleeps of [ms]; it
    throws only once all of them are sent; and it returns a response only
    after an answer 'completed'. *)
Lemma poll_loop_facts id cb maxAttempts ms net : forall fuel attempts s,
  (Z.to_nat (maxAttempts - attempts) < fuel)%nat ->
  loop_facts ms net (Z.to_nat (maxAttempts - attempts)) (n_status s)
    (poll_loop fuel id cb maxAttempts ms attempts net s).
Proof.
  induction fuel as [| fuel IH]; intros attempts s Hfuel; [lia |].
  destruct (Z.ltb_spec attempts maxAttempts) as [Hlt | Hge].
  2:{ rewrite poll_loop_done by assumption.
      replace (Z.to_nat (maxAttempts - attempts)) with 0%nat by lia.
      unfold loop_facts; cbn.
      split; [discriminate |]. split; [lia |]. split; [reflexivity |].
      split; [reflexivity | discriminate]. }
  assert (Hm : Z.to_nat (maxAttempts - attempts)
               = S (Z.to_nat (maxAttempts - (attempts + 1)))) by lia.
  assert (Hlast : (attempts =? maxAttempts - 1) = true ->
                  Z.to_nat (maxAttempts - (attempts + 1)) = 0%nat).
  { intros H. apply Z.eqb_eq in H. lia. }
  rewrite poll_loop_turn by assumption. cbv zeta. rewrite Hm.
  assert (Hnext : forall s', n_status s' = S (n_status s) ->
    loop_facts ms net (Z.to_nat (maxAttempts - (attempts + 1)))
      (S (n_status s))
      (poll_loop fuel id cb maxAttempts ms (attempts + 1) net s')).
  { intros s' <-. apply IH. lia. }
  destruct (status_reply net (n_status s)) as [e | st] eqn:Hreply.
  - apply facts_caught; auto; cbn; now rewrite ?Z.eqb_refl.
  - destruct (status st) eqn:Hst.
    + apply facts_after; auto; destruct cb; cbn; now rewrite ?Z.eqb_refl.
    + destruct (results_reply net (n_results s)).
      * apply facts_caught; auto; destruct cb; cbn; now rewrite ?Z.eqb_refl.
      * apply facts_returned; [now destruct cb | now destruct cb |].
        exists st. split; assumption.
    + apply facts_caught; auto; destruct cb; cbn; now rewrite ?Z.eqb_refl.
Qed.

(** When no answer within the budget is 'completed', the last answer
    decides how the call ends. *)
Lemma poll_loop_last id cb maxAttempts ms net : forall fuel attempts s,
  (Z.to_nat (maxAttempts - attempts) < fuel)%nat ->
  attempts < maxAttempts ->
  (forall k, (k < Z.to_nat (maxAttempts - attempts))%nat ->
     ~ reports net (n_status s + k) completed) ->
  outcome (poll_loop fuel id cb maxAttempts ms attempts net s)
  = verdict (status_reply net
               (n_status s + Z.to_nat (maxAttempts - attempts) - 1)).
Proof.
  induction fuel as [| fuel IH]; intros attempts s Hfuel Hlt Hnone; [lia |].
  rewrite poll_loop_turn by assumption. cbv zeta.
  assert (Hnext : forall s', n_status s' = S (n_status s) ->
    (attempts =? maxAttempts - 1) = false ->
    outcome (poll_loop fuel id cb maxAttempts ms (attempts + 1) net s')
    = verdict (status_reply net
                 (n_status s + Z.to_nat (maxAttempts - attempts) - 1))).
  { intros s' Hs' Hlast. apply Z.eqb_neq in Hlast.
    rewrite IH; [| lia | lia |].
    - rewrite Hs'. f_equal. f_equal. lia.
    - intros k Hk. rewrite Hs'.
      replace (S (n_status s) + k)%nat with (n_status s + S k)%nat by lia.
      apply Hnone. lia. }
  assert (Hend : (attempts =? maxAttempts - 1) = true ->
    (n_status s + Z.to_nat (maxAttempts - attempts) - 1)%nat = n_status s).
  { intros H. apply Z.eqb_eq in H. lia. }
  destruct (status_reply net (n_status s)) as [e | st] eqn:Hreply.
  - unfold caught. destruct (attempts =? maxAttempts - 1) eqn:Hlast.
    + rewrite Hend, Hreply by reflexivity. reflexivity.
    + cbn [after outcome snd]. now apply Hnext.
  - destruct (status st) eqn:Hst.
    + cbn [after outcome snd].
      destruct (attempts =? maxAttempts - 1) eqn:Hlast.
      * rewrite Hend, Hreply by reflexivity. cbn [verdict]. rewrite Hst.
        apply Z.eqb_eq in Hlast. destruct fuel as [| fuel]; [lia |].
        rewrite poll_loop_done by lia. reflexivity.
      * now apply Hnext.
    + exfalso. apply (Hnone 0%nat); [lia |].
      rewrite Nat.add_0_r. exists st. split; assumption.
    + unfold caught. destruct (attempts =? maxAttempts - 1) eqn:Hlast.
      * rewrite Hend, Hreply by reflexivity. cbn [verdict outcome snd].
        now rewrite Hst.
      * cbn [after outcome snd]. now apply Hnext.
Qed.

(** A turn starts with its status request. *)
Lemma poll_loop_first_request fuel id cb maxAttempts ms attempts net s :
  attempts < maxAttempts ->
  exists rest,
    events (poll_loop (S fuel) id cb maxAttempts ms attempts net s)
    = GetStatus id :: rest.
Proof.
  intros Hlt. rewrite poll_loop_turn by assumption. cbv zeta.
  unfold caught, after.
  destruct (status_reply net (n_status s)) as [e | st];
    [| destruct (status st);
       [| destruct (results_reply net (n_results s)) |]];
    destruct (attempts =? maxAttempts - 1); cbn; eauto.
Qed.

(** C2: called without [maxAttempts] and [intervalMs], [pollSearchStatus]
    ends by itself, sends at most 30 status requests with a sleep of 2000 ms
    before each one but the first, goes on after a failed request (a first
    request that fails is followed by the sleep and a second request; an
    error is thrown only when the 30 requests are sent), and throws
    'Search timeout - please try again.', which is not the message of a
    failed search, when no answer was 'completed' and the 30th answer still
    says 'searching'. *)
Theorem pollSearchStatus_default_contract (net : Network) (searchId : Z)
    (onProgress : bool) :
  outcome (run (pollSearchStatus_default searchId onProgress) net) <> inr None
  /\ (status_requests
        (events (run (pollSearchStatus_default searchId onProgress) net))
      <= 30)%nat
  /\ paced 2000 true
       (events (run (pollSearchStatus_default searchId onProgress) net))
     = true
  /\ (forall e, status_reply net 0 = inl e ->
        exists rest,
          events (run (pollSearchStatus_default searchId onProgress) net)
          = GetStatus searchId :: Sleep 2000 :: GetStatus searchId :: rest)
  /\ (forall e,
        outcome (run (pollSearchStatus_default searchId onProgress) net)
        = inl e ->
        status_requests
          (events (run (pollSearchStatus_default searchId onProgress) net))
        = 30%nat)
  /\ ((forall k, (k < 30)%nat -> ~ reports net k completed) ->
      reports net 29 searching ->
      outcome (run (pollSearchStatus_default searchId onProgress) net)
      = inl "Search timeout - please try again.")
  /\ "Search timeout - please try again." <> failed_message.
Proof.
  unfold run, pollSearchStatus_default, pollSearchStatus.
  change (Z.to_nat 30) with 30%nat.
  destruct (poll_loop_facts searchId onProgress 30 2000 net 31 0 start)
    as (Hnone & Hle & Hpaced & Hthrow & _); [cbn; lia |].
  change (Z.to_nat (30 - 0)) with 30%nat in *.
  split; [exact Hnone |]. split; [exact Hle |]. split; [exact Hpaced |].
  split; [| split; [exact Hthrow | split; [| discriminate]]].
  - intros e He. rewrite poll_loop_turn by lia. cbv zeta.
    change (n_status start) with 0%nat. rewrite He.
    change (0 =? 30 - 1) with false. unfold caught, after. cbn [events fst].
    destruct (poll_loop_first_request 29 searchId onProgress 30 2000 (0 + 1)
                net (status_sent start)) as [rest ->]; [lia |].
    now exists rest.
  - intros Hnot (st & Hreply & Hst).
    rewrite poll_loop_last; [| cbn; lia | lia |].
    + change (n_status start + Z.to_nat (30 - 0) - 1)%nat with 29%nat.
      rewrite Hreply. cbn [verdict]. now rewrite Hst.
    + intros k Hk. change (n_status start + k)%nat with k. apply Hnot.
      change (Z.to_nat (30 - 0)) with 30%nat in Hk. exact Hk.
Qed.

(** A search that stays 'searching' for the 30 polls. *)
Example pollSearchStatus_times_out :
  let still :=
    {| search_id := 7; status := searching;
       progress := {| database_completed := true; rag_completed := false;
                      web_completed := false; total_sources := 3;
                      completed_sources := 1 |};
       estimated_completion_time := Some 10 |} in
  let net :=
    {| submit_reply := fun _ => inl "unused";
       status_reply := fun _ => inr still;
       results_reply := fun _ => inl "unused" |} in
  outcome (run (pollSearchStatus_default 7 false) net)
  = inl "Search timeout - please try again."
  /\ status_requests (events (run (pollSearchStatus_default 7 false) net))
     = 30%nat
  /\ sent (run (pollSearchStatus_default 7 false) net)
     = {| n_submit := 0; n_status := 30; n_results := 0 |}.
Proof. repeat split. Qed.

(** Two failed requests, then an answer 'completed': the call goes on after
    each error and returns the fetched response. *)
Example pollSearchStatus_retries :
  let progress_done :=
    {| database_completed := true; rag_completed := true;
       web_completed := true; total_sources := 3; completed_sources := 3 |} in
  let response :=
    {| resp_search_id := 7; resp_status := completed; results := [];
       summary := "No solutions found."; confidence_score := 0;
       search_progress := Some progress_done |} in
  let net :=
    {| submit_reply := fun _ => inl "unused";
       status_reply := fun k =>
         if (k <? 2)%nat
         then inl "Network error. Please check your connection."
         else inr {| search_id := 7; status := completed;
                     progress := progress_done;
                     estimated_completion_time := None |};
       results_reply := fun _ => inr response |} in
  run (pollSearchStatus_default 7 false) net
  = ([GetStatus 7; Sleep 2000; GetStatus 7; Sleep 2000; GetStatus 7;
      GetResults 7],
     {| n_submit := 0; n_status := 3; n_results := 1 |},
     inr (Some response)).
Proof. reflexivity. Qed.

(** One run of the progress view's [pollStatus] on an answer 'failed'. *)
Lemma pollStatus_failed id onComplete onError net s st :
  status_reply net (n_status s) = inr st ->
  status st = failed ->
  SearchProgress.pollStatus id onComplete onError net s
  = (GetStatus id :: SetStatus st :: SetIsPolling false
       :: (if onError then [OnError "Search failed"] else []),
     status_sent s, inr tt).
Proof.
  intros Hreply Hst.
  unfold SearchProgress.pollStatus, try_catch, bind, getSearchStatus.
  rewrite Hreply. cbn. rewrite Hst. cbn. now destruct onError.
Qed.

(** What holds of a failed search: [pollSearchStatus] returns a response only
    after an answer 'completed'; when no answer within the budget is
    'completed' and the last one says 'failed', it throws 'Search failed'; a
    run of [pollStatus] that is answered 'failed' returns nothing and passes
    'Search failed' to [onError]; and that message is not the one of the
    polling timeout. *)
Lemma failed_search_reported_at_last_attempt (net : Network) (searchId : Z)
    (onProgress : bool) (maxAttempts intervalMs : Z) :
  (forall r,
     outcome (run (pollSearchStatus searchId onProgress maxAttempts intervalMs)
                  net) = inr (Some r) ->
     exists k, (k < Z.to_nat maxAttempts)%nat /\ reports net k completed)
  /\ (0 < maxAttempts ->
      (forall k, (k < Z.to_nat maxAttempts)%nat -> ~ reports net k completed) ->
      reports net (Z.to_nat maxAttempts - 1) failed ->
      outcome (run (pollSearchStatus searchId onProgress maxAttempts intervalMs)
                   net) = inl "Search failed")
  /\ (forall onComplete s st,
        status_reply net (n_status s) = inr st -> status st = failed ->
        SearchProgress.pollStatus searchId onComplete true net s
        = ([GetStatus searchId; SetStatus st; SetIsPolling false;
            OnError "Search failed"], status_sent s, inr tt))
  /\ "Search failed" <> timeout_message.
Proof.
  unfold run, pollSearchStatus.
  split; [| split; [| split; [| discriminate]]].
  - intros r Hr.
    destruct (poll_loop_facts searchId onProgress maxAttempts intervalMs net
                (S (Z.to_nat maxAttempts)) 0 start)
      as (_ & _ & _ & _ & Hret); [rewrite Z.sub_0_r; lia |].
    rewrite Z.sub_0_r in Hret. exact (Hret r Hr).
  - intros Hmax Hnot (st & Hreply & Hst).
    rewrite poll_loop_last; [| rewrite Z.sub_0_r; lia | lia |].
    + rewrite Z.sub_0_r. change (n_status start) with 0%nat.
      rewrite Nat.add_0_l, Hreply. cbn [verdict]. now rewrite Hst.
    + intros k Hk. rewrite Z.sub_0_r in Hk. apply Hnot. exact Hk.
  - intros onComplete s st Hreply Hst.
    now rewrite (pollStatus_failed _ _ _ _ _ _ Hreply Hst).
Qed.

(** C3: a search is reported 'failed' by the first answer and the 29 later
    requests fail in transport. The progress view's [pollStatus] passes
    'Search failed' to [onError] on that answer, but [pollSearchStatus]
    catches its own 'Search failed', polls on for the whole budget and throws
    the transport error of the last attempt instead. *)
Theorem failed_search_masked_by_transport_error :
  reports masked_failure 0 failed
  /\ SearchProgress.pollStatus 7 true true masked_failure start
     = ([GetStatus 7; SetStatus (answer_failed 7); SetIsPolling false;
         OnError "Search failed"], status_sent start, inr tt)
  /\ outcome (run (pollSearchStatus_default 7 false) masked_failure)
     = inl "Network error. Please check your connection."
  /\ outcome (run (pollSearchStatus_default 7 false) masked_failure)
     <> inl "Search failed"
  /\ status_requests
       (events (run (pollSearchStatus_default 7 false) masked_failure))
     = 30%nat.
Proof.
  assert (Hout : outcome (run (pollSearchStatus_default 7 false) masked_failure)
                 = inl "Network error. Please check your connection.")
    by (vm_compute; reflexivity).
  split; [exists (answer_failed 7); split; reflexivity |].
  split; [vm_compute; reflexivity |]. split; [exact Hout |].
  split; [rewrite Hout; discriminate | vm_compute; reflexivity].
Qed.

(** A search reported 'failed' from the third poll on, polled five times:
    the error is caught on the third and fourth turn and leaves the function
    on the fifth. *)
Example pollSearchStatus_failed_search :
  let answer s :=
    {| search_id := 7; status := s;
       progress := {| database_completed := true; rag_completed := true;
                      web_completed := true; total_sources := 3;
                      completed_sources := 3 |};
       estimated_completion_time := None |} in
  let net :=
    {| submit_reply := fun _ => inl "unused";
       status_reply := fun k => if (k <? 2)%nat then inr (answer searching)
                                else inr (answer failed);
       results_reply := fun _ => inl "unused" |} in
  run (pollSearchStatus 7 false 5 2000) net
  = ([GetStatus 7; Sleep 2000; GetStatus 7; Sleep 2000; GetStatus 7;
      Sleep 2000; GetStatus 7; Sleep 2000; GetStatus 7],
     {| n_submit := 0; n_status := 5; n_results := 0 |},
     inl "Search failed").
Proof. reflexivity. Qed.

End Polling.

(** ** Progress view *)

Section ProgressView.

Import SolutionSearch SearchProgress.

(** The partial progress of the current source is between 0 and 100. *)
Lemma currentSourceProgress_bounds (elapsedTime : Q) (est : Z) :
  0 < est -> (0 <= elapsedTime)%Q ->
  (0 <= Qmin (elapsedTime / inject_Z est * 100) 100
   /\ Qmin (elapsedTime / inject_Z est * 100) 100 <= 100)%Q.
Proof.
  intros Hest Hpos. split; [| apply Q.le_min_r].
  apply Q.min_glb; [| discriminate].
  apply Qmult_le_0_compat; [| discriminate].
  apply Qle_shift_div_l.
  - change 0%Q with (inject_Z 0). now rewrite <- Zlt_Qlt.
  - now rewrite Qmult_0_l.
Qed.

(** With [done] of the three sources completed and one of the others in
    progress, the percentage stays within bounds. *)
Lemma share_bounds (done : Z) (partial : Q) :
  0 <= done <= 2 -> (0 <= partial)%Q -> (partial <= 100)%Q ->
  (0 <= inject_Z done / inject_Z 3 * 100 + partial / inject_Z 3
   /\ inject_Z done / inject_Z 3 * 100 + partial / inject_Z 3 <= 100)%Q.
Proof.
  intros Hdone H0 H100. unfold Qdiv. change (/ inject_Z 3)%Q with (1 # 3).
  assert (Hd : done = 0 \/ done = 1 \/ done = 2) by lia.
  destruct Hd as [-> | [-> | ->]];
    [change (inject_Z 0) with 0%Q | change (inject_Z 1) with 1%Q
     | change (inject_Z 2) with 2%Q]; split; lra.
Qed.

(** C8: whatever the completion flags and the elapsed time (not negative),
    the overall progress percentage lies between 0 and 100. *)
Theorem progressPercentage_bounds (status : option SearchStatusResponse)
    (elapsedTime : Q) :
  (0 <= elapsedTime)%Q ->
  (0 <= progressPercentage status elapsedTime
   /\ progressPercentage status elapsedTime <= 100)%Q.
Proof.
  intros Hpos.
  assert (Hall : (0 <= inject_Z 3 / inject_Z 3 * 100
                  /\ inject_Z 3 / inject_Z 3 * 100 <= 100)%Q)
    by (split; discriminate).
  destruct status as [[sid st [d r w tot comp] est] |];
    [destruct d, r, w |]; unfold progressPercentage; cbn; try exact Hall.
  all: try match goal with
       | |- context [nth_error ?l ?n] =>
           let v := eval cbv in (nth_error l n) in
           change (nth_error l n) with v
       end; cbn beta iota; cbn [estimatedTime].
  all: apply share_bounds;
         [lia | apply currentSourceProgress_bounds; [lia | exact Hpos]
              | apply currentSourceProgress_bounds; [lia | exact Hpos]].
Qed.

(** The bounds two seconds into a search whose knowledge base has answered. *)
Lemma progressPercentage_bounds_witness :
  (0 <= 2)%Q
  /\ (0 <= progressPercentage (Some rag_only) 2
      /\ progressPercentage (Some rag_only) 2 <= 100)%Q.
Proof.
  split; [discriminate |].
  apply (progressPercentage_bounds (Some rag_only) 2). discriminate.
Defined.

(** After 2 seconds with only the knowledge base completed the bar is at
    1500/27 (55.6 percent); with everything completed it is at 100. *)
Example progressPercentage_samples :
  let flags d r w :=
    Some {| search_id := 7; status := searching;
            progress := {| database_completed := d; rag_completed := r;
                           web_completed := w; total_sources := 3;
                           completed_sources := 0 |};
            estimated_completion_time := None |} in
  (progressPercentage (flags false true false) 2 == 1500 # 27)%Q /\
  (progressPercentage (flags true true true) 2 == 100)%Q /\
  (progressPercentage (flags true true false) 60 == 100)%Q /\
  (progressPercentage None 0 == 0)%Q.
Proof. repeat split. Qed.

(** C5: the estimated remaining time is the sum of 3 s (database), 4 s
    (knowledge base) and 6 s (web) over the sources not yet completed; it is
    never negative, and 0 once the three sources are completed. *)
Theorem estimatedTotalTime_spec (st : SearchStatusResponse) :
  let d := database_completed (progress st) in
  let r := rag_completed (progress st) in
  let w := web_completed (progress st) in
  estimatedTotalTime (Some st)
    = (if d then 0 else 3) + (if r then 0 else 4) + (if w then 0 else 6)
  /\ estimatedTotalTime (Some st)
      = fold_right Z.add 0
          (map estimatedTime
             (filter (fun source => negb (completed source))
                     (updatedSources (Some st))))
  /\ 0 <= estimatedTotalTime (Some st)
  /\ (d && r && w = true <-> estimatedTotalTime (Some st) = 0).
Proof.
  destruct st as [sid s [d r w tot comp] est]. cbn [progress database_completed
    rag_completed web_completed].
  destruct d, r, w; cbv; repeat split; congruence.
Qed.

(** Before the first status arrives every source counts as pending. *)
Example estimatedTotalTime_no_status : estimatedTotalTime None = 13.
Proof. reflexivity. Qed.


End ProgressView.

(** ** The search form *)

Section SearchForm.

Import Async SolutionSearchForm.

(** Values with an issue are never parsed into data. *)
Lemma solutionSearchSchema_issue v i :
  In i (issues v) ->
  exists errors, solutionSearchSchema v = inl errors /\ In i errors.
Proof.
  unfold solutionSearchSchema. intros Hin.
  destruct (issues v) as [| j rest] eqn:Hissues; [contradiction |].
  exists (j :: rest). split; [| exact Hin].
  now destruct (enum (severity v)).
Qed.

(** Once parsing fails, nothing the form is given is run: the page's handler
    is not called and the run is empty. *)
Lemma rejected_nothing_sent v errors isValid isLoading :
  solutionSearchSchema v = inl errors ->
  (forall T (onSubmit : SolutionSearch.SolutionSearchFormData -> T),
     submit onSubmit isValid isLoading v = Blocked \/
     submit onSubmit isValid isLoading v = Invalid errors)
  /\ (forall net s,
        SolutionSearchPage.submitForm isValid isLoading v net s
        = ([], s, inr tt)).
Proof.
  intros Hparse. split.
  - intros T onSubmit. unfold submit, handleSubmit. rewrite Hparse.
    destruct (negb isValid || isLoading); auto.
  - intros net s. unfold SolutionSearchPage.submitForm, submit, handleSubmit.
    rewrite Hparse. now destruct (negb isValid || isLoading).
Qed.

(** C4: with a problem description of fewer than 10 characters the schema
    reports the issue and parsing fails; submitting the form then calls no
    handler, so the page sends no submit request (its run has no event and
    the request counters are unchanged). *)
Theorem short_description_rejected (v : FormValues) (isValid isLoading : bool) :
  (String.length (problem_description v) < 10)%nat ->
  (exists errors,
     solutionSearchSchema v = inl errors /\
     In ("problem_description",
         "Problem description must be at least 10 characters") errors)
  /\ (forall T (onSubmit : SolutionSearch.SolutionSearchFormData -> T) data,
        submit onSubmit isValid isLoading v <> Valid (onSubmit data))
  /\ (forall net s,
        SolutionSearchPage.submitForm isValid isLoading v net s
        = ([], s, inr tt)).
Proof.
  intros Hshort.
  destruct (solutionSearchSchema_issue v
              ("problem_description",
               "Problem description must be at least 10 characters"))
    as (errors & Hparse & Hin).
  { unfold issues, min at 1. apply Nat.ltb_lt in Hshort. rewrite Hshort.
    now left. }
  destruct (rejected_nothing_sent v errors isValid isLoading Hparse)
    as [Hform Hpage].
  split; [now exists errors |]. split; [| exact Hpage].
  intros T onSubmit data. destruct (Hform T onSubmit) as [-> | ->]; discriminate.
Qed.

(** A description of 5 characters is rejected before anything is sent. *)
Lemma short_description_rejected_witness :
  (String.length (problem_description short_description) < 10)%nat
  /\ String.length (problem_description short_description) = 5%nat
  /\ forall net s,
       SolutionSearchPage.submitForm true false short_description net s
       = ([], s, inr tt).
Proof.
  split; [cbn; lia |]. split; [reflexivity |].
  apply (short_description_rejected short_description true false). cbn; lia.
Defined.

(** C9: a problem description of more than 1000 characters, or a reporter
    name of fewer than 2 or more than 100 characters, makes parsing fail, and
    submitting the form then sends no submit request. *)
Theorem long_description_or_bad_name_rejected (v : FormValues)
    (isValid isLoading : bool) :
  (1000 < String.length (problem_description v))%nat
  \/ (String.length (reporter_name v) < 2)%nat
  \/ (100 < String.length (reporter_name v))%nat ->
  (exists errors, solutionSearchSchema v = inl errors /\ errors <> [])
  /\ (forall T (onSubmit : SolutionSearch.SolutionSearchFormData -> T) data,
        submit onSubmit isValid isLoading v <> Valid (onSubmit data))
  /\ (forall net s,
        SolutionSearchPage.submitForm isValid isLoading v net s
        = ([], s, inr tt)).
Proof.
  intros Hbad.
  assert (Hissue : exists i, In i (issues v)).
  { unfold issues. destruct Hbad as [Hlong | [Hshort | Hlong]].
    - exists ("problem_description",
              "Problem description must be less than 1000 characters").
      apply in_or_app. left. apply in_or_app. right.
      unfold max. apply Nat.ltb_lt in Hlong. rewrite Hlong. now left.
    - exists ("reporter_name",
              "Reporter name must be at least 2 characters").
      do 3 (apply in_or_app; right). apply in_or_app. left.
      unfold min. apply Nat.ltb_lt in Hshort. rewrite Hshort. now left.
    - exists ("reporter_name",
              "Reporter name must be less than 100 characters").
      do 3 (apply in_or_app; right). apply in_or_app. right.
      unfold max. apply Nat.ltb_lt in Hlong. rewrite Hlong. now left. }
  destruct Hissue as (i & Hin).
  destruct (solutionSearchSchema_issue v i Hin) as (errors & Hparse & Hin').
  destruct (rejected_nothing_sent v errors isValid isLoading Hparse)
    as [Hform Hpage].
  split; [exists errors; split; [exact Hparse | now destruct errors] |].
  split; [| exact Hpage].
  intros T onSubmit data. destruct (Hform T onSubmit) as [-> | ->]; discriminate.
Qed.

(** A reporter name of 1 character is rejected before anything is sent. *)
Lemma long_description_or_bad_name_rejected_witness :
  ((1000 < String.length (problem_description short_name))%nat
   \/ (String.length (reporter_name short_name) < 2)%nat
   \/ (100 < String.length (reporter_name short_name))%nat)
  /\ forall net s,
       SolutionSearchPage.submitForm true false short_name net s
       = ([], s, inr tt).
Proof.
  assert (H : (1000 < String.length (problem_description short_name))%nat
              \/ (String.length (reporter_name short_name) < 2)%nat
              \/ (100 < String.length (reporter_name short_name))%nat)
    by (right; left; cbn; lia).
  split; [exact H |].
  apply (long_description_or_bad_name_rejected short_name true false H).
Defined.

(** A description of exactly 10 or exactly 1000 characters and a name of
    exactly 2 characters pass; the submit request is then the first event
    after the two state updates. *)
Example boundary_values_submitted :
  let v n := {| problem_description := string_of_list_ascii (repeat "x"%char n);
                department := "Quality"; severity := "high";
                reporter_name := "Al" |} in
  let net := {| submit_reply := fun _ => inl "Network error. Please check your connection.";
                status_reply := fun _ => inl "unused";
                results_reply := fun _ => inl "unused" |} in
  (exists data, solutionSearchSchema (v 10%nat) = inr data)
  /\ (exists data, solutionSearchSchema (v 1000%nat) = inr data)
  /\ solutionSearchSchema (v 1001%nat)
     = inl [("problem_description",
             "Problem description must be less than 1000 characters")]
  /\ exists body rest,
       events (SolutionSearchPage.submitForm true false (v 10%nat) net start)
       = SetIsSubmitting true :: SetError None :: PostSubmit body :: rest.
Proof.
  cbv zeta. split; [| split; [| split]].
  - eexists. vm_compute. reflexivity.
  - eexists. vm_compute. reflexivity.
  - vm_compute. reflexivity.
  - do 2 eexists. vm_compute. reflexivity.
Qed.

End SearchForm.

(** ** The search record: status and confidence score *)

Section Orchestration.

Import SolutionSearch Orchestrator.
Local Open Scope list_scope.

Lemma allTerminal_not_pending r s :
  allTerminal r = true -> is_pending (sourceState r s) = false.
Proof.
  unfold allTerminal, sources, terminal. cbn [forallb].
  rewrite !andb_true_iff, !negb_true_iff. intros (Hs & Hk & Hw & _).
  now destruct s.
Qed.

Lemma checkFinalize_status r :
  status (checkFinalize r) = status r
  \/ (status r = searching /\ allTerminal r = true
      /\ checkFinalize r
         = finalize (if (0 <? successfulSources r)%nat then completed
                     else failed)
                    (Some (aggregate r)) r).
Proof.
  unfold checkFinalize.
  destruct (status r) eqn:Hst; cbn [SolutionSearch.status_eqb andb]; auto.
  destruct (allTerminal r) eqn:Hall; auto.
Qed.

Lemma mark_status r e :
  match e with
  | SourceDone s rs => status (markSourceDone s rs r) = status r
  | SourceErrored s => status (markSourceErrored s r) = status r
  | Ceiling => True
  end.
Proof.
  destruct e as [s rs | s |]; [unfold markSourceDone | unfold markSourceErrored
                               | exact I];
    now destruct (is_pending (sourceState r s)).
Qed.

(** A step leaves a final status alone, and takes 'searching' to itself, to
    'completed' or to 'failed'. *)
Lemma step_status r e :
  status (step r e) = status r
  \/ (status r = searching
      /\ (status (step r e) = completed \/ status (step r e) = failed)).
Proof.
  destruct e as [s rs | s |]; cbn [step].
  - pose proof (mark_status r (SourceDone s rs)) as Hm. cbn in Hm.
    destruct (checkFinalize_status (markSourceDone s rs r))
      as [-> | (Hs & _ & ->)]; [now left |].
    right. rewrite <- Hm. split; [exact Hs |]. cbn [finalize status].
    destruct (0 <? _)%nat; auto.
  - pose proof (mark_status r (SourceErrored s)) as Hm. cbn in Hm.
    destruct (checkFinalize_status (markSourceErrored s r))
      as [-> | (Hs & _ & ->)]; [now left |].
    right. rewrite <- Hm. split; [exact Hs |]. cbn [finalize status].
    destruct (0 <? _)%nat; auto.
  - unfold ceiling. destruct (status r) eqn:Hst;
      cbn [SolutionSearch.status_eqb finalize status]; auto.
Qed.

Lemma finalize_settled r :
  allTerminal r = true ->
  settled (finalize (if (0 <? successfulSources r)%nat then completed
                     else failed)
                    (Some (aggregate r)) r).
Proof.
  intros Hall Hst. cbn [finalize status] in Hst.
  destruct (0 <? successfulSources r)%nat eqn:Hpos; [| discriminate].
  apply Nat.ltb_lt in Hpos. repeat split; assumption.
Qed.

Lemma step_settled r e : settled r -> settled (step r e).
Proof.
  intros Hr. destruct (status r) eqn:Hst.
  - (* searching *)
    destruct e as [s rs | s |]; cbn [step].
    + destruct (checkFinalize_status (markSourceDone s rs r))
        as [Hsame | (_ & Hall & ->)].
      * intros Hc. rewrite Hsame in Hc.
        pose proof (mark_status r (SourceDone s rs)) as Hm. cbn in Hm.
        congruence.
      * now apply finalize_settled.
    + destruct (checkFinalize_status (markSourceErrored s r))
        as [Hsame | (_ & Hall & ->)].
      * intros Hc. rewrite Hsame in Hc.
        pose proof (mark_status r (SourceErrored s)) as Hm. cbn in Hm.
        congruence.
      * now apply finalize_settled.
    + unfold ceiling. rewrite Hst. cbn [SolutionSearch.status_eqb].
      intros Hc. discriminate Hc.
  - (* completed: no source is pending, nothing is written *)
    destruct (Hr Hst) as (Hall & _).
    assert (Hsame : step r e = r).
    { destruct e as [s rs | s |]; cbn [step].
      - unfold markSourceDone.
        rewrite (allTerminal_not_pending r s Hall).
        unfold checkFinalize. now rewrite Hst.
      - unfold markSourceErrored.
        rewrite (allTerminal_not_pending r s Hall).
        unfold checkFinalize. now rewrite Hst.
      - unfold ceiling. now rewrite Hst. }
    now rewrite Hsame.
  - (* failed *)
    intros Hc. destruct (step_status r e) as [Hsame | [Hs _]]; congruence.
Qed.

Lemma exec_snoc trace e : exec (trace ++ [e]) = step (exec trace) e.
Proof. unfold exec. now rewrite fold_left_app. Qed.

Lemma exec_settled trace : settled (exec trace).
Proof.
  induction trace as [| e trace IH] using rev_ind.
  - intros Hc. discriminate Hc.
  - rewrite exec_snoc. now apply step_settled.
Qed.

(** C7: along any sequence of events the status of a record either stays
    what it is or moves from 'searching' to 'completed' or 'failed'; a final
    status is kept by every later event; and a record observed 'completed'
    has its three source states terminal. *)
Theorem status_monotonic (trace : list Event) (e : Event) :
  (status (exec (trace ++ [e])) = status (exec trace)
   \/ (status (exec trace) = searching
       /\ (status (exec (trace ++ [e])) = completed
           \/ status (exec (trace ++ [e])) = failed)))
  /\ (forall later,
        status (exec trace) <> searching ->
        status (exec (trace ++ later)) = status (exec trace))
  /\ (status (exec trace) = completed ->
      forall s, sourceState (exec trace) s = done
                \/ sourceState (exec trace) s = errored).
Proof.
  split; [| split].
  - rewrite exec_snoc. apply step_status.
  - intros later Hfinal. induction later as [| e' later IH] using rev_ind.
    + now rewrite app_nil_r.
    + rewrite app_assoc, exec_snoc.
      destruct (step_status (exec (trace ++ later)) e') as [-> | [Hs _]].
      * exact IH.
      * congruence.
  - intros Hc s. destruct (exec_settled trace Hc) as (Hall & _).
    pose proof (allTerminal_not_pending _ s Hall) as Hp.
    destruct (sourceState (exec trace) s); auto. discriminate Hp.
Qed.

Lemma ranks_before_true a b :
  ranks_before a b = true -> (relevanceScore b <= relevanceScore a)%Q.
Proof.
  unfold ranks_before. rewrite orb_true_iff, andb_true_iff, negb_true_iff.
  intros [Hgt | [Heq _]].
  - apply Qlt_le_weak, Qnot_le_lt. intros Hle.
    apply Qle_bool_iff in Hle. congruence.
  - apply Qeq_bool_iff in Heq. rewrite Heq. apply Qle_refl.
Qed.

Lemma ranks_before_false a b :
  ranks_before a b = false -> (relevanceScore a <= relevanceScore b)%Q.
Proof.
  unfold ranks_before. rewrite orb_false_iff, negb_false_iff.
  intros [Hle _]. now apply Qle_bool_iff.
Qed.

Lemma insert_In a l x : In x (insert a l) <-> x = a \/ In x l.
Proof.
  induction l as [| b l IH]; cbn.
  - intuition.
  - destruct (ranks_before a b); cbn; [intuition |].
    rewrite IH. intuition.
Qed.

Lemma sort_In l x : In x (sort l) <-> In x l.
Proof.
  induction l as [| a l IH]; cbn; [tauto |].
  rewrite insert_In, IH. intuition.
Qed.

Lemma insert_led a l : led l -> led (insert a l).
Proof.
  unfold led. destruct l as [| b l]; cbn [insert].
  - intros _ x [<- | []]. apply Qle_refl.
  - intros Hl. destruct (ranks_before a b) eqn:Hab; cbn [topScore].
    + intros x [<- | Hin]; [apply Qle_refl |].
      apply Qle_trans with (relevanceScore b);
        [exact (Hl x Hin) | now apply ranks_before_true].
    + intros x [<- | Hin]; [apply Qle_refl |].
      apply insert_In in Hin. destruct Hin as [-> | Hin].
      * now apply ranks_before_false.
      * apply (Hl x). now right.
Qed.

Lemma sort_led l : led (sort l).
Proof.
  induction l as [| a l IH]; cbn.
  - intros x [].
  - now apply insert_led.
Qed.

Lemma merge_In r s x : In x (resultsBySource r s) -> In x (merge r).
Proof.
  intros Hin. unfold merge. apply sort_In. rewrite !in_app_iff.
  destruct s; auto.
Qed.

Lemma successfulSources_all r :
  (forall s, sourceState r s = done) -> successfulSources r = 3%nat.
Proof.
  intros Hall. unfold successfulSources, sources. cbn [filter].
  now rewrite !Hall.
Qed.

Lemma successfulSources_one_errored r s :
  sourceState r s = errored ->
  (forall s', s' <> s -> sourceState r s' = done) ->
  successfulSources r = 2%nat.
Proof.
  intros Herr Hothers. unfold successfulSources, sources. cbn [filter].
  destruct s; rewrite Herr, !Hothers by discriminate; reflexivity.
Qed.

(** C6: for a completed search the confidence score is the relevance score
    of the top-ranked merged result (which no result of any source exceeds)
    times the fraction of the three sources that succeeded: the top score
    itself when the three succeeded, the top score times 2/3 when exactly one
    errored. *)
Theorem confidence_score_spec (trace : list Event) :
  status (exec trace) = completed ->
  exists agg,
    aggregated (exec trace) = Some agg
    /\ results agg = merge (exec trace)
    /\ (forall s x, In x (resultsBySource (exec trace) s) ->
          (relevanceScore x <= topScore (results agg))%Q)
    /\ (confidenceScore agg
        == topScore (results agg)
           * (inject_Z (Z.of_nat (successfulSources (exec trace))) / 3))%Q
    /\ ((forall s, sourceState (exec trace) s = done) ->
        (confidenceScore agg == topScore (results agg))%Q)
    /\ (forall s, sourceState (exec trace) s = errored ->
          (forall s', s' <> s -> sourceState (exec trace) s' = done) ->
          (confidenceScore agg == topScore (results agg) * (2 # 3))%Q).
Proof.
  intros Hc. destruct (exec_settled trace Hc) as (_ & _ & Hagg).
  exists (aggregate (exec trace)). split; [exact Hagg |].
  cbn [aggregate results confidenceScore]. split; [reflexivity |].
  split; [| split; [reflexivity | split]].
  - intros s x Hin. apply sort_led. fold (merge (exec trace)).
    now apply merge_In with s.
  - intros Hall. rewrite (successfulSources_all _ Hall).
    change (inject_Z (Z.of_nat 3) / 3)%Q with ((3 # 1) * (1 # 3))%Q. lra.
  - intros s Herr Hothers.
    rewrite (successfulSources_one_errored _ s Herr Hothers).
    change (inject_Z (Z.of_nat 2) / 3)%Q with ((2 # 1) * (1 # 3))%Q. lra.
Qed.

(** The scenario of the design document ends 'completed', with the merged
    order 0.9, 0.7, 0.6 and the confidence score 0.9 * 2/3 = 0.6. *)
Example scenario_outcome :
  status (exec scenario) = completed
  /\ option_map (fun agg => map relevanceScore (results agg))
       (aggregated (exec scenario)) = Some [9 # 10; 7 # 10; 6 # 10]%Q
  /\ option_map (fun agg => Qred (confidenceScore agg))
       (aggregated (exec scenario)) = Some (3 # 5)%Q.
Proof. split; [| split]; reflexivity. Qed.

(** The confidence score of the scenario, where the web source errored. *)
Lemma confidence_score_spec_witness :
  status (exec scenario) = completed
  /\ exists agg,
       aggregated (exec scenario) = Some agg
       /\ results agg = merge (exec scenario)
       /\ (forall s x, In x (resultsBySource (exec scenario) s) ->
             (relevanceScore x <= topScore (results agg))%Q)
       /\ (confidenceScore agg
           == topScore (results agg)
              * (inject_Z (Z.of_nat (successfulSources (exec scenario))) / 3))%Q
       /\ ((forall s, sourceState (exec scenario) s = done) ->
           (confidenceScore agg == topScore (results agg))%Q)
       /\ (forall s, sourceState (exec scenario) s = errored ->
             (forall s', s' <> s -> sourceState (exec scenario) s' = done) ->
             (confidenceScore agg == topScore (results agg) * (2 # 3))%Q).
Proof.
  split; [reflexivity | apply (confidence_score_spec scenario); reflexivity].
Defined.

End Orchestration.

(** ** Polling with any budget *)

Section PollingBudget.

Import SolutionSearch Async SolutionSearchService PollingTrace.
Local Open Scope list_scope.




Lemma progress_calls_app ev ev' :
  progress_calls (ev ++ ev') = progress_calls ev ++ progress_calls ev'.
Proof.
  induction ev as [| e ev IH]; [reflexivity |].
  destruct e; cbn; now rewrite ?IH.
Qed.

Lemma results_requests_app ev ev' :
  results_requests (ev ++ ev')
  = (results_requests ev + results_requests ev')%nat.
Proof.
  induction ev as [| e ev IH]; [reflexivity |].
  destruct e; cbn; now rewrite ?IH.
Qed.

(** The loop returns at the first answer 'completed' whose results arrive. *)
Lemma poll_loop_returns id cb maxAttempts ms net r : forall k fuel attempts s,
  (Z.to_nat (maxAttempts - attempts) < fuel)%nat ->
  (k < Z.to_nat (maxAttempts - attempts))%nat ->
  (forall j, (j < k)%nat -> ~ reports net (n_status s + j) completed) ->
  reports net (n_status s + k) completed ->
  results_reply net (n_results s) = inr r ->
  outcome (poll_loop fuel id cb maxAttempts ms attempts net s) = inr (Some r)
  /\ status_requests (events (poll_loop fuel id cb maxAttempts ms attempts net s))
     = S k
  /\ results_requests (events (poll_loop fuel id cb maxAttempts ms attempts net s))
     = 1%nat.
Proof.
  induction k as [| k IH]; intros fuel attempts s Hfuel Hk Hbefore Hdone Hres;
    (destruct fuel as [| fuel]; [lia |]);
    rewrite poll_loop_turn by lia; cbv zeta.
  - rewrite Nat.add_0_r in Hdone. destruct Hdone as (st & -> & ->).
    rewrite Hres. cbn [outcome events fst snd].
    rewrite status_requests_app, results_requests_app.
    destruct cb; cbn; auto.
  - assert (Hlast : (attempts =? maxAttempts - 1) = false)
      by (apply Z.eqb_neq; lia).
    rewrite Hlast.
    assert (Hnext : forall ev s',
      n_status s' = S (n_status s) -> n_results s' = n_results s ->
      status_requests ev = 1%nat -> results_requests ev = 0%nat ->
      let x := after (ev ++ [Sleep ms])
                 (poll_loop fuel id cb maxAttempts ms (attempts + 1) net s') in
      outcome x = inr (Some r) /\ status_requests (events x) = S (S k)
      /\ results_requests (events x) = 1%nat).
    { intros ev s' Hs Hr Hev Hev'.
      destruct (IH fuel (attempts + 1) s') as (H1 & H2 & H3); try lia.
      - intros j Hj. rewrite Hs.
        replace (S (n_status s) + j)%nat with (n_status s + S j)%nat by lia.
        apply Hbefore. lia.
      - rewrite Hs.
        now replace (S (n_status s) + k)%nat with (n_status s + S k)%nat by lia.
      - now rewrite Hr.
      - cbv zeta. unfold after; cbn [outcome events fst snd].
        rewrite !status_requests_app, !results_requests_app, Hev, Hev', H2, H3.
        cbn. auto. }
    destruct (status_reply net (n_status s)) as [e | st] eqn:Hreply.
    + unfold caught. now apply Hnext.
    + destruct (status st) eqn:Hst.
      * apply Hnext; try reflexivity; now destruct cb.
      * exfalso. apply (Hbefore 0%nat); [lia |].
        rewrite Nat.add_0_r. now exists st.
      * unfold caught. apply Hnext; try reflexivity; now destruct cb.
Qed.

(** X3: when the answer number [k] within the budget is the first to say
    'completed' (whatever came before: 'searching', 'failed' or a failed
    request) and the results request succeeds, the call returns exactly the
    fetched response, after [k + 1] status requests and a single results
    request. *)
Theorem pollSearchStatus_returns_fetched_results (net : Network) (searchId : Z)
    (onProgress : bool) (maxAttempts intervalMs : Z) (k : nat)
    (r : SolutionSearchResponse) :
  (k < Z.to_nat maxAttempts)%nat ->
  (forall j, (j < k)%nat -> ~ reports net j completed) ->
  reports net k completed ->
  results_reply net 0 = inr r ->
  outcome (run (pollSearchStatus searchId onProgress maxAttempts intervalMs) net)
  = inr (Some r)
  /\ status_requests
       (events (run (pollSearchStatus searchId onProgress maxAttempts
                       intervalMs) net)) = S k
  /\ results_requests
       (events (run (pollSearchStatus searchId onProgress maxAttempts
                       intervalMs) net)) = 1%nat.
Proof.
  intros Hk Hbefore Hdone Hres. unfold run, pollSearchStatus.
  apply poll_loop_returns; try assumption; rewrite ?Z.sub_0_r; lia.
Qed.

(** The search of [slow_success] is returned at its fourth status request. *)
Lemma pollSearchStatus_returns_fetched_results_witness :
  (3 < Z.to_nat 30)%nat
  /\ outcome (run (pollSearchStatus 7 true 30 2000) slow_success)
     = inr (Some (empty_response 7))
  /\ status_requests (events (run (pollSearchStatus 7 true 30 2000) slow_success))
     = 4%nat
  /\ results_requests (events (run (pollSearchStatus 7 true 30 2000) slow_success))
     = 1%nat.
Proof.
  split; [cbn; lia |].
  apply (pollSearchStatus_returns_fetched_results slow_success 7 true 30 2000 3).
  - cbn; lia.
  - intros j Hj (st & Hreply & Hst).
    destruct j as [| [| [| j]]]; cbn in Hreply; try lia;
      try discriminate Hreply; injection Hreply as <-; discriminate Hst.
  - exists (answer 7 completed). split; reflexivity.
  - reflexivity.
Defined.

(** In a turn's events the callback is called with the answer, if any. *)
Lemma answers_step net first n :
  answers net first (S n)
  = match status_reply net first with
    | inr st => st :: answers net (S first) n
    | inl _ => answers net (S first) n
    end.
Proof. reflexivity. Qed.

Lemma poll_loop_progress id cb maxAttempts ms net : forall fuel attempts s,
  (Z.to_nat (maxAttempts - attempts) < fuel)%nat ->
  progress_calls (events (poll_loop fuel id cb maxAttempts ms attempts net s))
  = if cb
    then answers net (n_status s)
           (status_requests
              (events (poll_loop fuel id cb maxAttempts ms attempts net s)))
    else [].
Proof.
  induction fuel as [| fuel IH]; intros attempts s Hfuel; [lia |].
  destruct (Z.ltb_spec attempts maxAttempts) as [Hlt | Hge].
  2:{ rewrite poll_loop_done by assumption. now destruct cb. }
  rewrite poll_loop_turn by assumption. cbv zeta.
  assert (Hnext : forall s', n_status s' = S (n_status s) ->
    progress_calls
      (events (poll_loop fuel id cb maxAttempts ms (attempts + 1) net s'))
    = if cb
      then answers net (S (n_status s))
             (status_requests
                (events (poll_loop fuel id cb maxAttempts ms (attempts + 1)
                           net s')))
      else []).
  { intros s' <-. apply IH. lia. }
  destruct (status_reply net (n_status s)) as [e | st] eqn:Hreply;
    [| destruct (status st);
       [| destruct (results_reply net (n_results s)) |]];
    unfold caught, after; destruct (attempts =? maxAttempts - 1);
    cbn [events fst];
    rewrite ?progress_calls_app, ?status_requests_app, ?Hnext by reflexivity;
    destruct cb; cbn [called app progress_calls status_requests Nat.add];
    rewrite ?progress_calls_app, ?status_requests_app, ?answers_step, ?Hreply;
    cbn [called app progress_calls status_requests Nat.add answers];
    rewrite ?Hreply; reflexivity.
Qed.

(** X4: when [onProgress] is supplied it is called once for every status
    request that was answered, in order and with that answer (also the
    answers 'completed' and 'failed'), and not for a request that failed;
    without it nothing is called. *)
Theorem pollSearchStatus_progress_calls (net : Network) (searchId : Z)
    (maxAttempts intervalMs : Z) :
  progress_calls
    (events (run (pollSearchStatus searchId true maxAttempts intervalMs) net))
  = answers net 0
      (status_requests
         (events (run (pollSearchStatus searchId true maxAttempts intervalMs)
                      net)))
  /\ progress_calls
       (events (run (pollSearchStatus searchId false maxAttempts intervalMs)
                    net)) = [].
Proof.
  unfold run, pollSearchStatus. split.
  - rewrite poll_loop_progress by (rewrite Z.sub_0_r; lia). reflexivity.
  - rewrite poll_loop_progress by (rewrite Z.sub_0_r; lia). reflexivity.
Qed.

(** The callback sees the two answers 'searching' and the answer 'completed'
    of [slow_success], not the failed request between them. *)
Example pollSearchStatus_progress_calls_sample :
  progress_calls (events (run (pollSearchStatus 7 true 30 2000) slow_success))
  = [answer 7 searching; answer 7 searching; answer 7 completed].
Proof. vm_compute. reflexivity. Qed.

Lemma poll_loop_events id cb maxAttempts ms net : forall fuel attempts s,
  forallb (poll_event id)
    (events (poll_loop fuel id cb maxAttempts ms attempts net s)) = true.
Proof.
  induction fuel as [| fuel IH]; intros attempts s; [reflexivity |].
  destruct (Z.ltb_spec attempts maxAttempts) as [Hlt | Hge].
  2:{ now rewrite poll_loop_done by assumption. }
  rewrite poll_loop_turn by assumption. cbv zeta.
  destruct (status_reply net (n_status s)) as [e | st] eqn:Hreply;
    [| destruct (status st);
       [| destruct (results_reply net (n_results s)) |]];
    unfold caught, after; destruct (attempts =? maxAttempts - 1);
    cbn [events fst]; rewrite ?forallb_app, ?IH; destruct cb; cbn;
    rewrite ?Z.eqb_refl; reflexivity.
Qed.





(** A search that never leaves 'searching' is waited for during the whole
    minute: 30 sleeps of 2000 ms. *)
Example pollSearchStatus_waits_a_minute :
  slept (events (run (pollSearchStatus_default 7 false)
                     {| submit_reply := fun _ => inl "unused";
                        status_reply := fun _ => inr (answer 7 searching);
                        results_reply := fun _ => inl "unused" |}))
  = 60000.
Proof. vm_compute. reflexivity. Qed.

End PollingBudget.

(** ** More of the progress view *)

Section ProgressViewMore.

Import SolutionSearch Async SolutionSearchService PollingTrace SearchProgress.
Local Open Scope list_scope.

(** X5: a run of [pollStatus] never throws and sends exactly one status
    request. A failed request is logged and its message passed to [onError],
    the stored status staying as it was; an answer 'searching' only updates
    the stored status; an answer 'completed' also stops the polling flag and
    calls [onComplete]. *)
Theorem pollStatus_never_throws (net : Network) (s : Sent) (searchId : Z)
    (onComplete onError : bool) :
  outcome (pollStatus searchId onComplete onError net s) = inr tt
  /\ sent (pollStatus searchId onComplete onError net s) = status_sent s
  /\ status_requests (events (pollStatus searchId onComplete onError net s))
     = 1%nat
  /\ (forall e, status_reply net (n_status s) = inl e ->
        events (pollStatus searchId onComplete onError net s)
        = GetStatus searchId :: ConsoleError "Error polling search status:"
            :: (if onError then [OnError e] else []))
  /\ (forall st, status_reply net (n_status s) = inr st ->
        events (pollStatus searchId onComplete onError net s)
        = GetStatus searchId :: SetStatus st
            :: match status st with
               | searching => []
               | SolutionSearch.completed =>
                   SetIsPolling false
                     :: (if onComplete then [OnComplete] else [])
               | failed =>
                   SetIsPolling false
                     :: (if onError then [OnError "Search failed"] else [])
               end).
Proof.
  unfold pollStatus, try_catch, bind, getSearchStatus. fold (status_sent s).
  destruct (status_reply net (n_status s)) as [e | st] eqn:Hreply.
  - destruct onError; cbn; repeat split; try discriminate;
      intros e' [= <-]; reflexivity.
  - destruct (status st) eqn:Hst, onComplete, onError; cbn;
      repeat split; try discriminate; intros st' [= <-]; rewrite Hst;
      reflexivity.
Qed.

(** The loop of [getCurrentSourceIndex] on any list of sources, started at
    index [i]: -1 when every source is completed, otherwise the index of the
    first source that is not. *)
Lemma firstPending_spec sources : forall i, 0 <= i ->
  (firstPending i sources = -1 /\ forallb completed sources = true)
  \/ (i <= firstPending i sources < i + Z.of_nat (List.length sources)
      /\ exists src,
           nth_error sources (Z.to_nat (firstPending i sources - i)) = Some src
           /\ completed src = false
           /\ forallb completed
                (firstn (Z.to_nat (firstPending i sources - i)) sources)
              = true).
Proof.
  induction sources as [| src sources IH]; intros i Hi; cbn [firstPending].
  - left. split; reflexivity.
  - destruct (completed src) eqn:Hsrc; cbn [negb].
    + destruct (IH (i + 1) ltac:(lia)) as [[Hnone Hall] | (Hrange & src' & Hnth & Hpend & Hbefore)].
      * left. split; [exact Hnone |]. cbn. now rewrite Hsrc.
      * right. cbn [List.length]. split; [lia |]. exists src'.
        replace (Z.to_nat (firstPending (i + 1) sources - i))
          with (S (Z.to_nat (firstPending (i + 1) sources - (i + 1)))) by lia.
        cbn [nth_error firstn forallb]. rewrite Hsrc. auto.
    + right. cbn [List.length]. split; [lia |]. exists src.
      rewrite Z.sub_diag. cbn. auto.
Qed.

(** X6: the current source index is -1 exactly when every source is
    completed; otherwise it points at a source that is not completed, and
    every source before it is completed. *)
Theorem getCurrentSourceIndex_spec (status : option SearchStatusResponse) :
  (getCurrentSourceIndex status = -1
   <-> forallb completed (updatedSources status) = true)
  /\ (getCurrentSourceIndex status <> -1 ->
      exists src,
        currentSource status = Some src /\ completed src = false
        /\ forallb completed
             (firstn (Z.to_nat (getCurrentSourceIndex status))
                     (updatedSources status)) = true).
Proof.
  unfold currentSource, getCurrentSourceIndex.
  destruct (firstPending_spec (updatedSources status) 0 ltac:(lia))
    as [[Hnone Hall] | (Hrange & src & Hnth & Hpend & Hbefore)].
  - rewrite Hnone. split; [tauto |]. intros H. now contradiction H.
  - rewrite Z.sub_0_r in Hnth, Hbefore. split.
    + split; [lia |]. intros Hall. exfalso.
      rewrite forallb_forall in Hall. apply nth_error_In in Hnth.
      rewrite (Hall src Hnth) in Hpend. discriminate.
    + intros _. exists src.
      replace (0 <=? firstPending 0 (updatedSources status)) with true
        by (symmetry; apply Z.leb_le; lia).
      replace (firstPending 0 (updatedSources status)
               <? Z.of_nat (List.length (updatedSources status))) with true
        by (symmetry; apply Z.ltb_lt; lia).
      cbn [andb]. auto.
Qed.

(** The percentage in terms of the current source. *)
Lemma progressPercentage_current status elapsedTime :
  progressPercentage status elapsedTime
  = match currentSource status with
    | Some src =>
        (inject_Z (completedSources status) / inject_Z (totalSources status)
         * 100
         + Qmin (elapsedTime / inject_Z (estimatedTime src) * 100) 100
           / inject_Z (totalSources status))%Q
    | None =>
        (inject_Z (completedSources status) / inject_Z (totalSources status)
         * 100)%Q
    end.
Proof.
  unfold progressPercentage, currentSource. cbv zeta.
  destruct ((0 <=? getCurrentSourceIndex status)
            && (getCurrentSourceIndex status
                <? Z.of_nat (List.length (updatedSources status))));
    [| reflexivity].
  now destruct (nth_error (updatedSources status)
                  (Z.to_nat (getCurrentSourceIndex status))).
Qed.

(** There are three sources; without a current source the three are
    completed, with one at most two are, and its estimate is positive. *)
Lemma currentSource_cases status :
  totalSources status = 3
  /\ match currentSource status with
     | None => completedSources status = 3
     | Some src =>
         0 <= completedSources status <= 2 /\ 0 < estimatedTime src
     end.
Proof.
  destruct status as [[sid st [d r w tot comp] est] |];
    [destruct d, r, w |]; vm_compute; intuition discriminate.
Qed.

Lemma scaled_le (a b : Q) (est : Z) :
  0 < est -> (a <= b)%Q ->
  (a / inject_Z est * 100 <= b / inject_Z est * 100)%Q.
Proof.
  intros Hest Hab. apply Qmult_le_compat_r; [| discriminate].
  apply Qmult_le_compat_r; [exact Hab |].
  apply Qinv_le_0_compat. change 0%Q with (inject_Z 0).
  rewrite <- Zle_Qle. lia.
Qed.

(** The partial progress is 100 exactly from the estimate on. *)
Lemma currentSourceProgress_full (elapsedTime : Q) (est : Z) :
  0 < est ->
  (Qmin (elapsedTime / inject_Z est * 100) 100 == 100
   <-> inject_Z est <= elapsedTime)%Q.
Proof.
  intros Hest.
  assert (Hpos : (0 < inject_Z est)%Q)
    by (change 0%Q with (inject_Z 0); now rewrite <- Zlt_Qlt).
  assert (Hscale : (inject_Z est / inject_Z est * 100 == 100)%Q).
  { field. intros H. rewrite H in Hpos. now apply Qlt_irrefl in Hpos. }
  split.
  - intros Hmin.
    assert (Hle : (100 <= elapsedTime / inject_Z est * 100)%Q)
      by (rewrite <- Hmin at 1; apply Q.le_min_l).
    apply Qnot_lt_le. intros Hlt.
    assert (Hcontra : (elapsedTime / inject_Z est * 100 < 100)%Q).
    { apply Qlt_le_trans with (inject_Z est / inject_Z est * 100)%Q;
        [| rewrite Hscale; apply Qle_refl].
      apply Qmult_lt_compat_r; [reflexivity |].
      apply Qmult_lt_compat_r; [now apply Qinv_lt_0_compat | exact Hlt]. }
    apply (Qlt_irrefl 100). eapply Qle_lt_trans; eauto.
  - intros Hle. apply Q.min_r.
    apply Qle_trans with (inject_Z est / inject_Z est * 100)%Q;
      [rewrite Hscale; apply Qle_refl | now apply scaled_le].
Qed.

(** X7: the bar shows 100 percent exactly when either every source is
    completed, or two are and the elapsed time has reached the estimate of
    the third: it can be full while one source is still being searched. *)
Theorem progressPercentage_full (status : option SearchStatusResponse)
    (elapsedTime : Q) :
  (0 <= elapsedTime)%Q ->
  (progressPercentage status elapsedTime == 100)%Q
  <-> match currentSource status with
      | None => True
      | Some src =>
          completedSources status = 2
          /\ (inject_Z (estimatedTime src) <= elapsedTime)%Q
      end.
Proof.
  intros Hpos. rewrite progressPercentage_current.
  destruct (currentSource_cases status) as [Htot Hcur]. rewrite Htot.
  destruct (currentSource status) as [src |].
  - destruct Hcur as [Hc Hest].
    destruct (currentSourceProgress_bounds elapsedTime _ Hest Hpos)
      as [Hm0 Hm100].
    pose proof (currentSourceProgress_full elapsedTime _ Hest) as Hfull.
    remember (Qmin (elapsedTime / inject_Z (estimatedTime src) * 100) 100)
      as m eqn:Em. clear Em.
    unfold Qdiv. change (/ inject_Z 3)%Q with (1 # 3).
    assert (Hcases : completedSources status = 0
                     \/ completedSources status = 1
                     \/ completedSources status = 2) by lia.
    destruct Hcases as [-> | [-> | ->]].
    + change (inject_Z 0) with 0%Q. split; [intros H; lra | intros [H _]; lia].
    + change (inject_Z 1) with 1%Q. split; [intros H; lra | intros [H _]; lia].
    + change (inject_Z 2) with 2%Q. split.
      * intros H. split; [reflexivity |]. apply Hfull. lra.
      * intros [_ H]. apply Hfull in H. lra.
  - rewrite Hcur. split; [trivial | intros _; reflexivity].
Qed.

(** With the database and the knowledge base completed, the bar is full six
    seconds in, whether or not the web search has answered. *)
Lemma progressPercentage_full_witness :
  (0 <= 6)%Q
  /\ (progressPercentage (Some two_completed) 6 == 100)%Q.
Proof.
  split; [discriminate |].
  apply (progressPercentage_full (Some two_completed) 6); [discriminate |].
  split; [reflexivity | discriminate].
Defined.

(** X8: for a given status the percentage never goes down as time
    passes. *)
Theorem progressPercentage_monotone (status : option SearchStatusResponse)
    (earlier later : Q) :
  (earlier <= later)%Q ->
  (progressPercentage status earlier <= progressPercentage status later)%Q.
Proof.
  intros Hle. rewrite !progressPercentage_current.
  destruct (currentSource_cases status) as [Htot Hcur]. rewrite Htot.
  destruct (currentSource status) as [src |]; [| apply Qle_refl].
  destruct Hcur as [_ Hest].
  apply Qplus_le_r. apply Qmult_le_compat_r; [| discriminate].
  apply Q.min_le_compat_r. now apply scaled_le.
Qed.

(** Between the second and the fifth second the bar does not move back. *)
Lemma progressPercentage_monotone_witness :
  (2 <= 5)%Q
  /\ (progressPercentage (Some rag_only) 2
      <= progressPercentage (Some rag_only) 5)%Q.
Proof.
  split; [discriminate |].
  apply (progressPercentage_monotone (Some rag_only) 2 5). discriminate.
Defined.




End ProgressViewMore.

(** ** More of the result view *)

Section ResultView.

Import SolutionSearch SearchResults.
Local Open Scope list_scope.

Lemma filter_by_source_length (rs : list SearchResult) :
  (List.length (filter (fun r => source_eqb (source r) database) rs)
   + List.length (filter (fun r => source_eqb (source r) rag) rs)
   + List.length (filter (fun r => source_eqb (source r) web) rs)
   = List.length rs)%nat.
Proof.
  induction rs as [| r rs IH]; [reflexivity |].
  cbn [filter]. destruct (source r); cbn; lia.
Qed.

Lemma source_eqb_eq a b : source_eqb a b = true <-> a = b.
Proof. destruct a, b; cbn; split; congruence. Qed.

(** X9: the three groups split the results: the numbers on the three tabs
    add up to the number of results found, a group holds results of its own
    source only, and every result is in the group of its source. *)
Theorem resultGroups_partition (response : SolutionSearchResponse) :
  tabCount database response + tabCount rag response + tabCount web response
  = Z.of_nat (List.length (results response))
  /\ (forall g r, In g (resultGroups response) -> In r (group_results g) ->
        source r = group_source g /\ In r (results response))
  /\ (forall r, In r (results response) ->
        exists g, In g (resultGroups response)
                  /\ group_source g = source r /\ In r (group_results g)).
Proof.
  split; [| split].
  - unfold tabCount. cbn.
    pose proof (filter_by_source_length (results response)). lia.
  - intros g r Hg Hr. cbn in Hg.
    destruct Hg as [<- | [<- | [<- | []]]]; cbn in Hr |- *;
      apply filter_In in Hr; destruct Hr as [Hin Hsrc];
      apply source_eqb_eq in Hsrc; auto.
  - intros r Hr.
    destruct (source r) eqn:Hsrc;
      [eexists; split; [left; reflexivity |]
      | eexists; split; [right; left; reflexivity |]
      | eexists; split; [right; right; left; reflexivity |]];
      cbn; (split; [reflexivity |]); apply filter_In; rewrite Hsrc; auto.
Qed.

(** X10: the "View Details" button opens the incident of the result: it is
    shown exactly for a database result whose metadata holds an incident id
    other than 0, and never for a knowledge-base or web result. *)
Theorem viewDetailsButton_spec (result : SearchResult) (index n : Z) :
  (viewDetailsButton (renderResult result index) = Shown n
   <-> source result = database
       /\ metadata_incident_id result = Some n /\ n <> 0)
  /\ (source result <> database ->
      viewDetailsButton (renderResult result index) = Empty).
Proof.
  unfold renderResult; cbn [viewDetailsButton]. unfold guard_num. split.
  - destruct (source result); cbn;
      try (split; [discriminate | intros [H _]; discriminate]).
    destruct (metadata_incident_id result) as [m |];
      [| split; [discriminate | intros (_ & H & _); discriminate]].
    destruct (Z.eqb_spec m 0) as [-> | Hm].
    + split; [discriminate | intros (_ & [= <-] & H); now contradiction H].
    + split.
      * intros [= <-]. auto.
      * intros (_ & [= <-] & _). reflexivity.
  - intros Hsrc. destruct (source result); cbn; congruence.
Qed.

Lemma to_int_nonnil (n : Z) :
  Z.to_int n <> Decimal.Pos Decimal.Nil /\ Z.to_int n <> Decimal.Neg Decimal.Nil.
Proof.
  destruct n as [| p | p]; cbn; split; try discriminate; intros [= H];
    now apply DecimalPos.Unsigned.to_uint_nonnil in H.
Qed.

(** Two numbers are printed alike only when they are equal. *)
Lemma show_inj (a b : Z) : JS.show a = JS.show b -> a = b.
Proof.
  unfold JS.show. intros H.
  apply (f_equal NilZero.int_of_string) in H.
  destruct (to_int_nonnil a) as [Ha Ha'], (to_int_nonnil b) as [Hb Hb'].
  rewrite !NilZero.isi in H by assumption.
  injection H as H. apply (f_equal Z.of_int) in H.
  now rewrite !DecimalZ.of_to in H.
Qed.

Lemma append_inj (p s s' : string) : (p ++ s = p ++ s')%string -> s = s'.
Proof.
  induction p as [| c p IH]; cbn; [trivial |]. intros [= H]. auto.
Qed.

Lemma key_inj r r' i j :
  key (renderResult r i) = key (renderResult r' j) -> i = j.
Proof.
  unfold renderResult; cbn [key].
  destruct (source r), (source r'); cbn; intros H;
    try discriminate H; apply show_inj;
    [apply (append_inj "database-") | apply (append_inj "rag-")
     | apply (append_inj "web-")]; exact H.
Qed.

Lemma renderFrom_keys rs : forall i k,
  In k (map key (renderFrom i rs)) ->
  exists r j, i <= j /\ k = key (renderResult r j).
Proof.
  induction rs as [| r rs IH]; intros i k Hin; cbn in Hin; [contradiction |].
  destruct Hin as [<- | Hin].
  - exists r, i. split; [lia | reflexivity].
  - destruct (IH (i + 1) k Hin) as (r' & j & Hj & ->).
    exists r', j. split; [lia | reflexivity].
Qed.

(** X11: the keys given to the cards of a list of results are pairwise
    distinct, for every list, so each card of a tab has a key of its own. *)
Theorem renderFrom_keys_distinct (rs : list SearchResult) (index : Z) :
  NoDup (map key (renderFrom index rs)).
Proof.
  revert index. induction rs as [| r rs IH]; intros index; cbn.
  - constructor.
  - constructor; [| apply IH]. intros Hin.
    destruct (renderFrom_keys rs (index + 1) _ Hin) as (r' & j & Hj & Hkey).
    apply key_inj in Hkey. lia.
Qed.

End ResultView.

(** ** More of the search form *)

Section SearchFormSchema.

Import Async SolutionSearchForm.
Local Open Scope list_scope.

Lemma min_nil n message path value :
  min n message path value = [] <-> (n <= String.length value)%nat.
Proof.
  unfold min. destruct (Nat.ltb_spec (String.length value) n).
  - split; [discriminate | lia].
  - split; [trivial | reflexivity].
Qed.

Lemma max_nil n message path value :
  max n message path value = [] <-> (String.length value <= n)%nat.
Proof.
  unfold max. destruct (Nat.ltb_spec n (String.length value)).
  - split; [discriminate | lia].
  - split; [trivial | reflexivity].
Qed.

Lemma enum_spec value :
  match enum value with
  | Some sev => severity_string sev = value
  | None => ~ In value ["low"; "medium"; "high"; "critical"]%string
  end.
Proof.
  unfold enum.
  destruct (String.eqb_spec value "low") as [-> | H1]; [reflexivity |].
  destruct (String.eqb_spec value "medium") as [-> | H2]; [reflexivity |].
  destruct (String.eqb_spec value "high") as [-> | H3]; [reflexivity |].
  destruct (String.eqb_spec value "critical") as [-> | H4]; [reflexivity |].
  cbn. intuition congruence.
Qed.

Lemma issues_nil v :
  issues v = []
  <-> (10 <= String.length (problem_description v) <= 1000)%nat
      /\ (1 <= String.length (department v))%nat
      /\ enum (severity v) <> None
      /\ (2 <= String.length (reporter_name v) <= 100)%nat.
Proof.
  unfold issues.
  assert (Happ : forall (l l' : list Issue), l ++ l' = [] <-> l = [] /\ l' = []).
  { intros l l'. split; [apply app_eq_nil | intros [-> ->]; reflexivity]. }
  rewrite !Happ, !min_nil, !max_nil.
  destruct (enum (severity v)); split; intros H; intuition congruence.
Qed.

(** X12: the schema accepts the values exactly when the description has 10
    to 1000 characters (1000 included), a department is chosen, the severity
    is one of the four levels and the name has 2 to 100 characters; the
    parsed data then carries the four values unchanged. *)
Theorem solutionSearchSchema_accepts (v : FormValues) :
  ((exists data, solutionSearchSchema v = inr data)
   <-> (10 <= String.length (problem_description v) <= 1000)%nat
       /\ (1 <= String.length (department v))%nat
       /\ In (severity v) ["low"; "medium"; "high"; "critical"]%string
       /\ (2 <= String.length (reporter_name v) <= 100)%nat)
  /\ (forall data, solutionSearchSchema v = inr data ->
        SolutionSearch.problem_description data = problem_description v
        /\ SolutionSearch.department data = department v
        /\ severity_string (SolutionSearch.severity data) = severity v
        /\ SolutionSearch.reporter_name data = reporter_name v).
Proof.
  unfold solutionSearchSchema. pose proof (issues_nil v) as Hnil.
  pose proof (enum_spec (severity v)) as Henum.
  destruct (issues v) as [| i rest].
  - destruct (proj1 Hnil eq_refl) as (Hd & Hdep & Hsev & Hname).
    destruct (enum (severity v)) as [sev |]; [| now contradiction Hsev].
    split.
    + split; [intros _ | eauto].
      repeat split; try lia. rewrite <- Henum. destruct sev; cbn; auto.
    + intros data [= <-]. cbn. auto.
  - split.
    + split.
      * intros [data Hdata]. destruct (enum (severity v)); discriminate.
      * intros (Hd & Hdep & Hsev & Hname).
        assert (Habs : i :: rest = []); [| discriminate Habs].
        apply Hnil. repeat split; try lia.
        destruct (enum (severity v)); [discriminate | contradiction].
    + intros data Hdata. destruct (enum (severity v)); discriminate.
Qed.

End SearchFormSchema.

(** ** The page's submit handler *)

Section PageSubmit.

Import SolutionSearch Async SolutionSearchService PollingTrace.
Import SolutionSearchPage.
Local Open Scope list_scope.

(** The run of the handler, by the answer to the submit request and the
    outcome of the polling. *)
Lemma handleFormSubmit_run (formData : SolutionSearchFormData) net s :
  handleFormSubmit formData net s
  = match submit_reply net (n_submit s) with
    | inl e =>
        ([SetIsSubmitting true; SetError None; PostSubmit formData;
          ConsoleError "Error during solution search:"; SetError (Some e);
          SetSearchState "error"; ToastError "Search failed" e;
          SetIsSubmitting false],
         submit_sent s, inr tt)
    | inr response =>
        let polling :=
          pollSearchStatus_default (resp_search_id response) true net
            (submit_sent s) in
        ([SetIsSubmitting true; SetError None; PostSubmit formData;
          SetSearchId (resp_search_id response); SetSearchState "searching"]
         ++ events polling
         ++ match outcome polling with
            | inr (Some finalResponse) =>
                [SetSearchResponse finalResponse; SetSearchState "results";
                 ToastSuccess "Search completed!"
                   ("Found "
                    ++ JS.show (Z.of_nat (List.length (results finalResponse)))
                    ++ " potential solutions.")%string]
            | inr None => []
            | inl e =>
                [ConsoleError "Error during solution search:";
                 SetError (Some e); SetSearchState "error";
                 ToastError "Search failed" e]
            end
         ++ [SetIsSubmitting false],
         sent polling, inr tt)
    end.
Proof.
  destruct formData as [pd dep sev name].
  unfold handleFormSubmit, try_finally, try_catch, bind, emit,
    submitSolutionSearch, ret.
  cbn [problem_description department severity reporter_name].
  fold (submit_sent s).
  destruct (submit_reply net (n_submit s)) as [e | response]; [reflexivity |].
  cbv zeta. unfold events, sent, outcome.
  destruct (pollSearchStatus_default (resp_search_id response) true net
              (submit_sent s)) as [[ev s'] [e | [finalResponse |]]];
    cbn [fst snd app]; rewrite ?app_nil_r, <- ?app_assoc; reflexivity.
Qed.

Lemma submit_requests_app ev ev' :
  submit_requests (ev ++ ev') = (submit_requests ev + submit_requests ev')%nat.
Proof.
  induction ev as [| e ev IH]; [reflexivity |].
  destruct e; cbn; now rewrite ?IH.
Qed.

Lemma poll_events_no_submit id ev :
  forallb (poll_event id) ev = true -> submit_requests ev = 0%nat.
Proof.
  induction ev as [| e ev IH]; [reflexivity |]. cbn [forallb].
  rewrite andb_true_iff. intros [He Hev]. destruct e; cbn; auto; discriminate.
Qed.

Lemma polling_events id net s :
  forallb (poll_event id) (events (pollSearchStatus_default id true net s))
  = true.
Proof. apply poll_loop_events. Qed.

Lemma polling_requests id net s :
  (status_requests (events (pollSearchStatus_default id true net s)) <= 30)%nat
  /\ outcome (pollSearchStatus_default id true net s) <> inr None.
Proof.
  unfold pollSearchStatus_default, pollSearchStatus.
  destruct (poll_loop_facts id true 30 2000 net 31 0 s) as (H1 & H2 & _);
    [cbn; lia |].
  split; [exact H2 | exact H1].
Qed.

(** X13: the page's submit handler never throws; it sets the submitting flag
    first and clears it last, whatever happens in between; it sends exactly
    one submit request, carrying the form data, and at most 30 status
    requests. *)
Theorem handleFormSubmit_brackets (formData : SolutionSearchFormData)
    (net : Network) (s : Sent) :
  outcome (handleFormSubmit formData net s) = inr tt
  /\ (exists between,
        events (handleFormSubmit formData net s)
        = SetIsSubmitting true :: SetError None :: PostSubmit formData
            :: between ++ [SetIsSubmitting false])
  /\ submit_requests (events (handleFormSubmit formData net s)) = 1%nat
  /\ (status_requests (events (handleFormSubmit formData net s)) <= 30)%nat.
Proof.
  rewrite handleFormSubmit_run.
  destruct (submit_reply net (n_submit s)) as [e | response].
  - cbn. split; [reflexivity |]. split; [| split; [reflexivity | lia]].
    now exists [ConsoleError "Error during solution search:"; SetError (Some e);
                SetSearchState "error"; ToastError "Search failed" e].
  - cbv zeta. cbn [outcome events fst snd].
    pose proof (polling_events (resp_search_id response) net (submit_sent s))
      as Hev.
    destruct (polling_requests (resp_search_id response) net (submit_sent s))
      as [Hle _].
    apply poll_events_no_submit in Hev.
    split; [reflexivity |]. split; [| split].
    + cbn [app]. rewrite app_assoc.
      match goal with
      | |- exists _, _ :: _ :: _ :: ?d :: ?e :: ?rest ++ _ = _ =>
          exists (d :: e :: rest)
      end.
      reflexivity.
    + cbn [app submit_requests]. rewrite !submit_requests_app, Hev.
      now destruct (outcome _) as [? | [? |]].
    + cbn [app status_requests]. rewrite !status_requests_app.
      destruct (outcome _) as [? | [? |]]; cbn [status_requests]; lia.
Qed.

Lemma poll_event_In id ev e :
  forallb (poll_event id) ev = true -> In e ev -> poll_event id e = true.
Proof. intros Hall Hin. rewrite forallb_forall in Hall. auto. Qed.

(** Case analysis on membership in the handler's events: a literal event is
    compared, an event of the polling is a polling event. *)
Ltac in_events Hpoll :=
  repeat match goal with
  | H : In _ (_ ++ _) |- _ => apply in_app_or in H; destruct H as [H | H]
  | H : In _ (_ :: _) |- _ => destruct H as [H | H]
  | H : In _ [] |- _ => contradiction H
  | H : In _ (events _) |- _ => apply Hpoll in H; discriminate H
  | H : @eq Event _ _ |- _ =>
      first [discriminate H | injection H as -> | injection H as <-]
  end.

Ltac show_in := cbn [In app]; rewrite ?in_app_iff; cbn [In]; auto 30.

(** X14: the page goes to the state "results" exactly when the submit
    request is answered and the polling returns a response, and to the state
    "error" exactly when the submit request or the polling throws, the
    thrown message (also the polling timeout) being the one shown. *)
Theorem handleFormSubmit_final_state (formData : SolutionSearchFormData)
    (net : Network) (s : Sent) :
  (In (SetSearchState "results") (events (handleFormSubmit formData net s))
   <-> exists response finalResponse,
         submit_reply net (n_submit s) = inr response
         /\ outcome (pollSearchStatus_default (resp_search_id response) true
                       net (submit_sent s)) = inr (Some finalResponse))
  /\ (forall e,
        In (SetError (Some e)) (events (handleFormSubmit formData net s))
        <-> submit_reply net (n_submit s) = inl e
            \/ exists response,
                 submit_reply net (n_submit s) = inr response
                 /\ outcome (pollSearchStatus_default (resp_search_id response)
                               true net (submit_sent s)) = inl e)
  /\ (forall e,
        In (SetError (Some e)) (events (handleFormSubmit formData net s))
        <-> In (SetSearchState "error")
              (events (handleFormSubmit formData net s))
            /\ In (ToastError "Search failed" e)
                 (events (handleFormSubmit formData net s))).
Proof.
  rewrite handleFormSubmit_run.
  destruct (submit_reply net (n_submit s)) as [e0 | response].
  - cbn [events fst]. split; [| split].
    + split.
      * intros H. in_events I.
      * intros (response & r & H & _). discriminate H.
    + intros e. split.
      * intros H. in_events I. now left.
      * intros [[= ->] | (response & H & _)]; [show_in | discriminate H].
    + intros e. split.
      * intros H. in_events I. split; show_in.
      * intros [_ H]. in_events I. show_in.
  - cbv zeta. cbn [events fst].
    pose proof (polling_events (resp_search_id response) net (submit_sent s))
      as Hev.
    assert (Hpoll : forall e,
      In e (events (pollSearchStatus_default (resp_search_id response) true
                      net (submit_sent s))) ->
      poll_event (resp_search_id response) e = true)
      by (intros e; now apply poll_event_In).
    destruct (outcome (pollSearchStatus_default (resp_search_id response) true
                         net (submit_sent s))) as [e0 | [r |]] eqn:Hout.
    + split; [| split].
      * split.
        -- intros H. in_events Hpoll.
        -- intros (response' & r & [= <-] & H). congruence.
      * intros e. split.
        -- intros H. in_events Hpoll. right. eauto.
        -- intros [H | (response' & [= <-] & H)]; [discriminate H |].
           rewrite Hout in H. injection H as ->. show_in.
      * intros e. split.
        -- intros H. in_events Hpoll. split; show_in.
        -- intros [_ H]. in_events Hpoll. show_in.
    + split; [| split].
      * split; [eauto |]. intros _. show_in.
      * intros e. split.
        -- intros H. in_events Hpoll.
        -- intros [H | (response' & [= <-] & H)]; congruence.
      * intros e. split.
        -- intros H. in_events Hpoll.
        -- intros [H _]. in_events Hpoll.
    + exfalso.
      now apply (polling_requests (resp_search_id response) net (submit_sent s)).
Qed.

End PageSubmit.

(** ** More of the file validation *)

Section FileValidationMore.

Import FileService IncidentReport.
Local Open Scope list_scope.




Lemma screen_spec newFiles :
  fst (screen newFiles)
  = filter (fun f => valid (validateFile_default f)) newFiles
  /\ snd (screen newFiles)
     = map (report defaultMaxSize defaultAllowedTypes)
         (filter (fun f => negb (valid (validateFile_default f))) newFiles).
Proof.
  induction newFiles as [| f newFiles [IHv IHt]]; [split; reflexivity |].
  cbn [screen filter]. destruct (screen newFiles) as [validFiles toasts].
  cbn [fst snd] in IHv, IHt. subst validFiles toasts.
  destruct (valid (validateFile_default f)); cbn [negb fst snd map];
    split; reflexivity.
Qed.

Lemma filter_valid_acceptable files :
  Forall acceptable (filter (fun f => valid (validateFile_default f)) files).
Proof.
  apply Forall_forall. intros f Hf. apply filter_In in Hf.
  now apply validateFile_default_valid.
Qed.

(** X17: [handleFileChange] keeps the files already selected and appends the
    new files that pass [validateFile], in order, up to 5 files in all; it
    shows one error toast per rejected file, and the count toast exactly
    when valid files had to be left out. *)
Theorem handleFileChange_spec (newFiles prev : list File) :
  (List.length prev <= 5)%nat ->
  let validFiles := filter (fun f => valid (validateFile_default f)) newFiles in
  let rejected :=
    map (report defaultMaxSize defaultAllowedTypes)
      (filter (fun f => negb (valid (validateFile_default f))) newFiles) in
  fst (handleFileChange (Some newFiles) prev)
  = prev ++ firstn (5 - List.length prev) validFiles
  /\ snd (handleFileChange (Some newFiles) prev)
     = rejected
       ++ (if (5 <? List.length prev + List.length validFiles)%nat
           then ["Maximum 5 files allowed"%string] else []).
Proof.
  intros Hprev. cbv zeta. unfold handleFileChange.
  destruct (screen_spec newFiles) as [Hv Ht].
  destruct (screen newFiles) as [validFiles toasts]. cbn [fst snd] in Hv, Ht.
  subst validFiles toasts.
  set (validFiles := filter (fun f => valid (validateFile_default f)) newFiles).
  destruct (Z.ltb_spec 0 (Z.of_nat (List.length validFiles))) as [Hsome | Hnone].
  - rewrite length_app.
    destruct (Z.gtb_spec (Z.of_nat (List.length prev + List.length validFiles)) 5)
      as [Hover | Hfit]; cbn [fst snd].
    + rewrite firstn_app, (firstn_all2 prev) by lia.
      destruct (Nat.ltb_spec 5 (List.length prev + List.length validFiles));
        [auto | lia].
    + rewrite firstn_all2 by lia.
      destruct (Nat.ltb_spec 5 (List.length prev + List.length validFiles));
        [lia |]. rewrite app_nil_r. split; reflexivity.
  - destruct validFiles as [| f rest]; [| cbn in Hnone; lia].
    cbn [fst snd List.length]. rewrite firstn_nil, !app_nil_r.
    destruct (Nat.ltb_spec 5 (List.length prev + 0)); [lia |].
    rewrite app_nil_r. split; reflexivity.
Qed.

(** Two photos selected, a photo and a video added: the photo is appended and
    the video rejected. *)
Lemma handleFileChange_spec_witness :
  (List.length [photo; photo] <= 5)%nat
  /\ fst (handleFileChange (Some [video; photo]) [photo; photo])
     = [photo; photo; photo]
  /\ snd (handleFileChange (Some [video; photo]) [photo; photo])
     = ["line3.mp4: File size exceeds maximum allowed size (10MB)"%string].
Proof.
  split; [cbn; lia |].
  apply (handleFileChange_spec [video; photo] [photo; photo]). cbn; lia.
Defined.

Lemma removeFrom_sublist index prev : forall i,
  (List.length (removeFrom i index prev) <= List.length prev)%nat
  /\ (forall f, In f (removeFrom i index prev) -> In f prev).
Proof.
  induction prev as [| f prev IH]; intros i; cbn [removeFrom].
  - split; [lia | trivial].
  - destruct (IH (i + 1)) as [Hlen Hin].
    destruct (negb (i =? index)); cbn [List.length In]; split;
      try lia; intuition.
Qed.

Lemma act_within_limits selectedFiles a :
  within_limits selectedFiles -> within_limits (act selectedFiles a).
Proof.
  intros [Hlen Hall]. destruct a as [[newFiles |] | index]; cbn [act].
  - destruct (handleFileChange_spec newFiles selectedFiles Hlen) as [-> _].
    split.
    + rewrite length_app, length_firstn. lia.
    + apply Forall_app. split; [exact Hall |].
      apply Forall_forall. intros f Hf.
      pose proof (filter_valid_acceptable newFiles) as Hacc.
      rewrite Forall_forall in Hacc. apply Hacc.
      rewrite <- (firstn_skipn (5 - List.length selectedFiles)).
      apply in_or_app. now left.
  - split; assumption.
  - destruct (removeFrom_sublist index selectedFiles 0) as [Hl Hin].
    unfold removeFile. split; [lia |].
    rewrite Forall_forall in *. auto.
Qed.

(** X18: whatever files the user adds and removes, the selection never holds
    more than 5 files nor a file outside the default limits, so the file
    check at the start of [onSubmit] never stops the submission. *)
Theorem selectedFiles_always_pass (actions : list Action) :
  (List.length (selectedAfter actions) <= 5)%nat
  /\ Forall acceptable (selectedAfter actions)
  /\ all_valid (validateFiles_default (selectedAfter actions)) = true
  /\ fileCheck (selectedAfter actions) = None.
Proof.
  assert (Hinv : within_limits (selectedAfter actions)).
  { unfold selectedAfter.
    induction actions as [| a actions IH] using rev_ind.
    - split; [cbn; lia | constructor].
    - rewrite fold_left_app. cbn [fold_left]. now apply act_within_limits. }
  destruct Hinv as [Hlen Hall].
  assert (Hvalid : all_valid (validateFiles_default (selectedAfter actions))
                   = true).
  { unfold validateFiles_default, validateFiles, defaultMaxFiles.
    destruct (Z.gtb_spec (Z.of_nat (List.length (selectedAfter actions))) 5);
      [lia |].
    cbn [all_valid]. apply Nat.eqb_eq, length_zero_iff_nil, fold_visit_nil.
    split; [reflexivity |]. eapply Forall_impl; [| exact Hall].
    intros f. apply validateFile_default_valid. }
  split; [exact Hlen |]. split; [exact Hall |]. split; [exact Hvalid |].
  unfold fileCheck. rewrite Hvalid.
  now destruct (Z.of_nat (List.length (selectedAfter actions)) >? 0).
Qed.

End FileValidationMore.
